(** * guv: hub, trampoline and handle lifecycle

    A shallow embedding of the scheduler core of guv
    ([guv/hubs/abc.py], [guv/hubs/trampoline.py]) and of the handle
    wrapper of [pyuv_cffi/__init__.py], followed by the properties the
    specification states about them.

    Python objects are mutable and shared, so every object lives in a
    store and is named by an identity; a method is a function in a small
    state-and-exception monad over that store. *)

From Stdlib Require Import QArith_base.
From stdpp Require Import gmap strings list fin_maps.


(** ** Identities and plain values *)

(** Identity of a greenlet object (what [is] compares). *)
Abbreviation gid := positive.
(** Identity of a timer object. *)
Abbreviation tid := positive.

(** [guv/const.py]: the two watch directions. *)
Inductive evtype_t := READ | WRITE.

Global Instance evtype_eq_dec : EqDecision evtype_t.
Proof. solve_decision. Defined.

(** The exceptions the modelled code can raise or pass around.  [Timeout]
    is the class imported by [from ..timeout import Timeout]; it is not
    the builtin [TimeoutError]. *)
Inductive exc :=
| Timeout
| TimeoutError
| AssertionError (msg : string)
| RuntimeError_Multiple (evtype : evtype_t) (fd : Z)
    (* RuntimeError('Multiple {evtype} on {fd} not supported') *)
| ValueError (msg : string)
| KeyError (key : Z)
| GreenletExit
| OtherError (name : string).

Global Instance exc_eq_dec : EqDecision exc.
Proof. solve_decision. Defined.

(** A value handed back by a greenlet switch. *)
Inductive pyobj := PyNone | PyOpaque (n : nat).

(** The callables the modelled code creates and passes to the hub. *)
Inductive callable :=
| g_switch (g : gid)   (* the bound method [g.switch] *)
| g_throw (g : gid)    (* the bound method [g.throw] *)
| _timeout (current : gid).
    (* the closure of trampoline: [def _timeout(exc): current.throw(exc)] *)

(** What calling one of those callables does. *)
Inductive action :=
| SwitchInto (g : gid)
| ThrowInto (g : gid) (e : option exc).

Definition call (cb : callable) (args : list exc) : action :=
  match cb with
  | g_switch g => SwitchInto g
  | g_throw g => ThrowInto g (head args)
  | _timeout current => ThrowInto current (head args)
  end.

(** ** The greenlet library, as far as the hub relies on it *)

Module greenlet.

(** A greenlet object: its [parent] attribute and its [dead] flag. The
    root greenlet of a thread is the only one without a parent. *)
Record t := mk { parent : option gid; dead : bool }.

Global Instance t_inhabited : Inhabited t := populate (mk None false).

Definition with_parent (p : gid) (g : t) : t := mk (Some p) (dead g).

(** The loop of the [parent] setter: walk from the proposed parent to
    the root and report whether [self] is met on the way. *)
Fixpoint in_chain (fuel : nat) (st : gmap gid t) (self : gid) (p : option gid) : bool :=
  match fuel, p with
  | S n, Some q =>
      if decide (q = self) then true
      else in_chain n st self (parent (st !!! q))
  | _, _ => false
  end.

(** [a] is a proper ancestor of [g]. *)
Definition is_ancestor (st : gmap gid t) (a g : gid) : bool :=
  in_chain (size st) st a (parent (st !!! g)).

(** The chain that starts at [p] stays inside the store, never passes
    through [self] and ends at a greenlet without parent. *)
Fixpoint rooted (fuel : nat) (st : gmap gid t) (self : gid) (p : option gid) : bool :=
  match p with
  | None => true
  | Some q =>
      match fuel with
      | O => false
      | S n =>
          if decide (q = self) then false
          else match st !! q with
               | Some o => rooted n st self (parent o)
               | None => false
               end
      end
  end.

(** [g] was made by the constructor: it is in the store, has a parent,
    and its parent chain ends at the root without coming back to [g]. *)
Definition well_parented (st : gmap gid t) (g : gid) : bool :=
  match st !! g with
  | Some o =>
      match parent o with
      | Some p => rooted (size st) st g (Some p)
      | None => false
      end
  | None => false
  end.

(** Where control goes when a greenlet whose parent is [p] finishes: the
    library switches to the parent and passes over dead greenlets, going
    on with their parents, so to the first greenlet up the chain that is
    not dead. *)
Fixpoint exit_target (fuel : nat) (st : gmap gid t) (p : option gid) : option gid :=
  match fuel, p with
  | S n, Some q =>
      if dead (st !!! q) then exit_target n st (parent (st !!! q)) else Some q
  | _, _ => None
  end.

End greenlet.

(** ** Listeners and the hub object ([guv/hubs/abc.py]) *)

Module AbstractListener.

(** [self.evtype], [self.fd], [self.greenlet]; the constructor's
    [assert evtype in [READ, WRITE]] is the type of [evtype]. *)
Record t := mk { evtype : evtype_t; fd : Z; greenlet : gid }.

Global Instance t_eq_dec : EqDecision t.
Proof. solve_decision. Defined.

(** [AbstractListener.__init__], run in greenlet [current]. *)
Definition __init__ (evtype : evtype_t) (fd : Z) (current : gid) : t :=
  mk evtype fd current.

End AbstractListener.

(** A value stored in a bucket: a listener, or Python's [None] (which
    [_remove_listener] stores just before it deletes the key). *)
Abbreviation slot := (option AbstractListener.t).

(** [self.listeners = {READ: {}, WRITE: {}}]: the outer dict always has
    exactly these two keys, so it is a pair of buckets. *)
Record registry := mk_registry {
  READ_bucket : gmap Z slot;
  WRITE_bucket : gmap Z slot
}.

(** [listeners[evtype]] *)
Definition bucket (r : registry) (e : evtype_t) : gmap Z slot :=
  match e with READ => READ_bucket r | WRITE => WRITE_bucket r end.

(** In-place update of the dict [listeners[evtype]]. *)
Definition set_bucket (r : registry) (e : evtype_t) (b : gmap Z slot) : registry :=
  match e with
  | READ => mk_registry b (WRITE_bucket r)
  | WRITE => mk_registry (READ_bucket r) b
  end.

Module Hub.

(** The attributes set by [AbstractHub.__init__] ([self.Listener] is a
    class reference and carries no state). *)
Record t := mk {
  listeners : registry;
  greenlet : gid;
  stopping : bool;
  _debug_exceptions : bool
}.

Definition set_listeners (r : registry) (h : t) : t :=
  mk r (greenlet h) (stopping h) (_debug_exceptions h).

Definition set_greenlet (g : gid) (h : t) : t :=
  mk (listeners h) g (stopping h) (_debug_exceptions h).

End Hub.

(** A timer object of the hub. *)
Record Timer := mk_Timer {
  seconds : Q;
  timer_cb : callable;
  timer_args : list exc;
  cancelled : bool
}.

(** ** The world: one thread, its hub and its greenlets *)

Record World := mk_World {
  hub : Hub.t;                       (* what [get_hub()] returns *)
  greenlets : gmap gid greenlet.t;   (* every greenlet object *)
  current : gid;                     (* [greenlet.getcurrent()] *)
  timers : gmap tid Timer;           (* every timer object *)
  callbacks : list callable          (* the immediate-dispatch queue *)
}.

Definition set_hub (h : Hub.t) (w : World) : World :=
  mk_World h (greenlets w) (current w) (timers w) (callbacks w).
Definition set_greenlets (st : gmap gid greenlet.t) (w : World) : World :=
  mk_World (hub w) st (current w) (timers w) (callbacks w).
Definition set_timers (ts : gmap tid Timer) (w : World) : World :=
  mk_World (hub w) (greenlets w) (current w) ts (callbacks w).
Definition set_callbacks (q : list callable) (w : World) : World :=
  mk_World (hub w) (greenlets w) (current w) (timers w) q.

(** ** State and exceptions *)

Inductive result (A : Type) :=
| Return (a : A)
| Raise (e : exc).
Arguments Return {A} a.
Arguments Raise {A} e.

Definition M (A : Type) : Type := World → result A * World.

Definition ret {A} (a : A) : M A := λ w, (Return a, w).
Definition raise {A} (e : exc) : M A := λ w, (Raise e, w).
Definition bind {A B} (m : M A) (k : A → M B) : M B :=
  λ w, match m w with
       | (Return a, w') => k a w'
       | (Raise e, w') => (Raise e, w')
       end.
Definition gets {A} (f : World → A) : M A := λ w, (Return (f w), w).
Definition modify (f : World → World) : M unit := λ w, (Return tt, f w).

Notation "'do' x <- m ; k" := (bind m (λ x, k))
  (at level 10, x name, m at level 100, k at level 200).
Notation "'do_' m ; k" := (bind m (λ _, k))
  (at level 10, m at level 100, k at level 200).

(** [assert cond, msg] *)
Definition assert_ (cond : bool) (msg : string) : M unit :=
  if cond then ret tt else raise (AssertionError msg).

(** [try: body finally: fin]: [fin] always runs; an exception of [fin]
    replaces the outcome of [body]. *)
Definition try_finally {A} (body : M A) (fin : M unit) : M A :=
  λ w, let '(r, w1) := body w in
       match fin w1 with
       | (Return _, w2) => (r, w2)
       | (Raise e, w2) => (Raise e, w2)
       end.

(** [try: body except ValueError: pass] *)
Definition except_ValueError_pass (body : M unit) : M unit :=
  λ w, match body w with
       | (Raise (ValueError _), w1) => (Return tt, w1)
       | other => other
       end.

(** ** greenlet operations on the world *)

(** [greenlet.getcurrent()] *)
Definition getcurrent : M gid := gets current.

(** [g.dead] *)
Definition get_dead (g : gid) : M bool :=
  gets (λ w, greenlet.dead (greenlets w !!! g)).

(** [g.parent] *)
Definition get_parent (g : gid) : M (option gid) :=
  gets (λ w, greenlet.parent (greenlets w !!! g)).

(** [greenlet.greenlet(run, parent)]: a new, live greenlet object; with
    [parent=None] the parent is the greenlet that runs the constructor. *)
Definition greenlet_greenlet (parent : option gid) : M gid :=
  λ w, let g := fresh (dom (greenlets w)) in
       let p := match parent with Some p => p | None => current w end in
       (Return g, set_greenlets (<[g := greenlet.mk (Some p) false]> (greenlets w)) w).

(** [self.parent = nparent]: refused with ValueError when [self] is on
    the parent chain of [nparent]. *)
Definition set_parent (self nparent : gid) : M unit :=
  λ w, let st := greenlets w in
       if greenlet.in_chain (S (size st)) st self (Some nparent)
       then (Raise (ValueError "cyclic parent chain"), w)
       else (Return tt,
             set_greenlets (<[self := greenlet.with_parent nparent (st !!! self)]> st) w).

(** ** [AbstractHub] *)

Module AbstractHub.

(** [self.greenlet] *)
Definition hub_greenlet : M gid := gets (λ w, Hub.greenlet (hub w)).

(** [ensure_greenlet] (abc.py, lines 98-107) *)
Definition ensure_greenlet : M unit :=
  do old <- hub_greenlet;
  do d <- get_dead old;
  if d then
    do p <- get_parent old;
    do new <- greenlet_greenlet p;
    do_ set_parent old new;
    modify (λ w, set_hub (Hub.set_greenlet new (hub w)) w)
  else ret tt.

(** [switch], lines 115-119: the caller [cur] is put under the hub
    greenlet unless the hub greenlet is its child; the ValueError of a
    parent cycle is swallowed. *)
Definition reparent (cur : gid) : M unit :=
  except_ValueError_pass (
    do hg <- hub_greenlet;
    do p <- get_parent hg;
    if bool_decide (p ≠ Some cur) then set_parent cur hg else ret tt).

(** [switch], lines 112-119: everything before control is handed over. *)
Definition switch_enter : M unit :=
  do cur <- getcurrent;
  do hg <- hub_greenlet;
  do_ assert_ (bool_decide (cur ≠ hg)) "Cannot switch to the hub from the hub";
  do_ ensure_greenlet;
  reparent cur.

(** [switch], with line 120 [return self.greenlet.switch()].
    [greenlet_switch g] stands for everything that runs between the
    switch into [g] and the moment the caller is resumed: it ends with the
    value switched back or the exception thrown into the caller. *)
Definition switch (greenlet_switch : gid → M pyobj) : M pyobj :=
  do_ switch_enter;
  do hg <- hub_greenlet;
  greenlet_switch hg.

(** [dict[key] = v] on the bucket of [evtype]. *)
Definition bucket_setitem (evtype : evtype_t) (key : Z) (v : slot) : M unit :=
  modify (λ w, let r := Hub.listeners (hub w) in
               set_hub (Hub.set_listeners
                          (set_bucket r evtype (<[key := v]> (bucket r evtype)))
                          (hub w)) w).

(** [del dict[key]] on the bucket of [evtype]; KeyError on a missing key. *)
Definition bucket_delitem (evtype : evtype_t) (key : Z) : M unit :=
  λ w, let r := Hub.listeners (hub w) in
       match bucket r evtype !! key with
       | Some _ =>
           (Return tt,
            set_hub (Hub.set_listeners
                       (set_bucket r evtype (delete key (bucket r evtype)))
                       (hub w)) w)
       | None => (Raise (KeyError key), w)
       end.

(** [_add_listener] (lines 127-141) *)
Definition _add_listener (listener : AbstractListener.t) : M unit :=
  let evtype := AbstractListener.evtype listener in
  let fd := AbstractListener.fd listener in
  do bucket_ <- gets (λ w, bucket (Hub.listeners (hub w)) evtype);
  if bool_decide (is_Some (bucket_ !! fd))
  then raise (RuntimeError_Multiple evtype fd)
  else bucket_setitem evtype fd (Some listener).

(** [_remove_listener] (lines 143-150) *)
Definition _remove_listener (listener : AbstractListener.t) : M unit :=
  do_ bucket_setitem (AbstractListener.evtype listener) (AbstractListener.fd listener) None;
  bucket_delitem (AbstractListener.evtype listener) (AbstractListener.fd listener).

End AbstractHub.

(** ** The concrete hub methods the trampoline calls

    [AbstractHub] declares [add], [remove] and [schedule_call_global]
    abstract, and [schedule_call_now] and the timer class live in the
    concrete hub, which is not part of the modelled sources. *)

Module ConcreteHub.

(** Modelled from the spec: [hub.add(evtype, fd, cb, tb)], whose body is
    in the concrete hub: "register interest ... Fails with a multiple
    listeners error if (dir, fd) is already registered", returning the
    listener. The listener is built by the listener class and entered
    through [_add_listener]; the two continuations are kept by the
    concrete listener's poll handle, which the registry never reads. *)
Definition add (evtype : evtype_t) (fd : Z) (cb tb : callable) : M AbstractListener.t :=
  do cur <- getcurrent;
  let listener := AbstractListener.__init__ evtype fd cur in
  do_ AbstractHub._add_listener listener;
  ret listener.

(** Modelled from the spec: [hub.remove(listener)], "unregister", through
    [_remove_listener]. *)
Definition remove (listener : AbstractListener.t) : M unit :=
  AbstractHub._remove_listener listener.

(** Modelled from the spec: [hub.schedule_call_global(seconds, cb, *args)],
    "return a cancellable timer object that fires cb(*args) after seconds":
    a new timer object, armed. *)
Definition schedule_call_global (seconds : Q) (cb : callable) (args : list exc) : M tid :=
  λ w, let t := fresh (dom (timers w)) in
       (Return t, set_timers (<[t := mk_Timer seconds cb args false]> (timers w)) w).

(** Modelled from the spec: [timer.cancel()], "Cancellation is idempotent.
    A cancelled timer must not invoke its callback thereafter": the
    cancellation flag of the timer object is set. *)
Definition cancel (t : tid) : M unit :=
  modify (λ w, set_timers
                 (alter (λ tm, mk_Timer (seconds tm) (timer_cb tm) (timer_args tm) true)
                        t (timers w)) w).

(** Modelled from the spec: [hub.schedule_call_now(cb)], "schedule for the
    next loop iteration", on "a FIFO queue for immediate-dispatch items". *)
Definition schedule_call_now (cb : callable) : M unit :=
  modify (λ w, set_callbacks (callbacks w ++ [cb]) w).

End ConcreteHub.

(** A timer that can still fire: it exists and is not cancelled. *)
Definition armed (w : World) (t : tid) : bool :=
  match timers w !! t with
  | Some tm => negb (cancelled tm)
  | None => false
  end.

(** The listener registered for [(evtype, fd)], if the key is there. *)
Definition registered (w : World) (evtype : evtype_t) (fd : Z) : option slot :=
  bucket (Hub.listeners (hub w)) evtype !! fd.

(** ** [guv/hubs/trampoline.py] *)

Module trampoline.

(** The default of the parameter [timeout_exc] (line 7). *)
Definition timeout_exc_default : exc := Timeout.

(** [trampoline] (lines 7-56). An argument left out is [None]. The first
    assertion compares the hub object with a greenlet object, two
    different objects whatever the caller; [isinstance(fd, int)] is the
    type of [fd]. *)
Definition trampoline (greenlet_switch : gid → M pyobj)
    (fd : Z) (evtype : evtype_t) (timeout : option Q) (timeout_exc : option exc)
    : M pyobj :=
  let timeout_exc := default timeout_exc_default timeout_exc in
  do current <- getcurrent;
  do_ assert_ true "do not call blocking functions from the mainloop";
  do timer <- match timeout with
              | Some seconds =>
                  do t <- ConcreteHub.schedule_call_global seconds
                            (_timeout current) [timeout_exc];
                  ret (Some t)
              | None => ret None
              end;
  try_finally
    (do listener <- ConcreteHub.add evtype fd (g_switch current) (g_throw current);
     try_finally
       (AbstractHub.switch greenlet_switch)
       (ConcreteHub.remove listener))
    (match timer with
     | Some t => ConcreteHub.cancel t
     | None => ret tt
     end).

(** [gyield] (lines 59-68) *)
Definition gyield (greenlet_switch : gid → M pyobj) : M unit :=
  do current <- getcurrent;
  do_ ConcreteHub.schedule_call_now (g_switch current);
  do_ AbstractHub.switch greenlet_switch;
  ret tt.

End trampoline.

(** ** Stages of a [trampoline] call, named for the statements below *)

(** The world once the timer of lines 36-42 is scheduled. *)
Definition with_timer (timeout : option Q) (timeout_exc : option exc) (w : World) : World :=
  match timeout with
  | Some s =>
      set_timers (<[fresh (dom (timers w)) :=
                      mk_Timer s (_timeout (current w))
                        [default trampoline.timeout_exc_default timeout_exc] false]>
                    (timers w)) w
  | None => w
  end.

(** The outer [finally] clause (lines 54-56). *)
Definition cancel_timer (timeout : option Q) (t : tid) : M unit :=
  match timeout with
  | Some _ => ConcreteHub.cancel t
  | None => ret tt
  end.

(** ** [pyuv_cffi/__init__.py]: the handle wrapper *)

Module pyuv_cffi.

(** Identity of a [Handle] object. *)
Abbreviation hid := positive.

(** A callable supplied by the user of the binding, by name. *)
Abbreviation user_cb := string.

(** The closures the methods wrap with [ffi.callback]. *)
Inductive ffi_callback :=
| close_cb_wrapper (self : hid) (callback : option user_cb)
    (* [cb_wrapper] of [Handle.close] *)
| start_cb_wrapper (self : hid) (callback : user_cb).
    (* [cb_wrapper] of the [start] methods of the subclasses *)

(** The attributes set by [Handle.__init__]. *)
Record Handle := mk_Handle {
  uv_handle : nat;                       (* the [uv_handle_t *] *)
  _ffi_cb : option ffi_callback;
  _ffi_close_cb : option ffi_callback;
  _close_called : bool
}.

(** Calls made into libuv. *)
Inductive uv_call :=
| uv_close (handle : nat) (close_cb : ffi_callback)
| uv_start (handle : nat) (cb : ffi_callback)
| uv_stop (handle : nat).

Record state := mk_state {
  handles : gmap hid Handle;        (* every [Handle] object *)
  alive : list hid;                 (* the module-level list [alive] *)
  libuv_calls : list uv_call;       (* calls made into libuv, oldest first *)
  user_calls : list (user_cb * hid) (* user callbacks invoked, oldest first *)
}.

(** [Handle.__init__] (lines 75-84), building a new object. *)
Definition __init__ (handle : nat) (s : state) : hid * state :=
  let self := fresh (dom (handles s)) in
  (self,
   mk_state (<[self := mk_Handle handle None None false]> (handles s))
            (alive s ++ [self]) (libuv_calls s) (user_calls s)).

(** [Handle.close] (lines 115-134); it returns [None] on both paths. *)
Definition close (self : hid) (callback : option user_cb) (s : state) : state :=
  match handles s !! self with
  | None => s
  | Some h =>
      if _close_called h then s
      else
        let ffi_cb := close_cb_wrapper self callback in
        mk_state
          (<[self := mk_Handle (uv_handle h) (_ffi_cb h) (Some ffi_cb) true]> (handles s))
          (alive s)
          (libuv_calls s ++ [uv_close (uv_handle h) ffi_cb])
          (user_calls s)
  end.

(** [alive.remove(self)]: the first occurrence goes; [None] stands for the
    ValueError of a missing element. *)
Fixpoint list_remove (self : hid) (l : list hid) : option (list hid) :=
  match l with
  | [] => None
  | x :: l' =>
      if decide (x = self) then Some l'
      else match list_remove self l' with
           | Some r => Some (x :: r)
           | None => None
           end
  end.

(** The body of [cb_wrapper] in [close] (lines 123-129), run by libuv once
    the handle is closed. [raises] tells whether this call of the user's
    callback raises; the callback is taken to leave the module's own state
    (the handles and [alive]) alone. An exception of the callback or of
    [alive.remove] ends the body there. *)
Definition close_cb_run (self : hid) (callback : option user_cb) (raises : bool)
    (s : state) : state :=
  let s1 := match callback with
            | Some cb => mk_state (handles s) (alive s) (libuv_calls s)
                                  (user_calls s ++ [(cb, self)])
            | None => s
            end in
  if match callback with Some _ => raises | None => false end then s1
  else
    match list_remove self (alive s1) with
    | None => s1
    | Some alive' =>
        match handles s1 !! self with
        | None => s1
        | Some h =>
            mk_state
              (<[self := mk_Handle (uv_handle h) None None (_close_called h)]> (handles s1))
              alive' (libuv_calls s1) (user_calls s1)
        end
    end.

(** The part shared by [Timer.start], [Signal.start] and [Poll.start]:
    [self._ffi_cb = ffi.callback(..., cb_wrapper)] and the libuv call. *)
Definition start (self : hid) (callback : user_cb) (s : state) : state :=
  match handles s !! self with
  | None => s
  | Some h =>
      let ffi_cb := start_cb_wrapper self callback in
      mk_state
        (<[self := mk_Handle (uv_handle h) (Some ffi_cb) (_ffi_close_cb h) (_close_called h)]>
           (handles s))
        (alive s)
        (libuv_calls s ++ [uv_start (uv_handle h) ffi_cb])
        (user_calls s)
  end.

(** What the [stop] methods do to the attributes of [Handle]. [Timer.stop]
    (lines 171-172) and [Signal.stop] (lines 203-204) only call libuv
    ([poll = false]); [Poll.stop] (lines 237-246) also sets
    [self._ffi_cb = None] ([poll = true]). The guard [_stop_called] of
    [Poll.stop] is left out here, so this [stop] may run more often than the
    real one. *)
Definition stop (poll : bool) (self : hid) (s : state) : state :=
  match handles s !! self with
  | None => s
  | Some h =>
      mk_state
        (<[self := mk_Handle (uv_handle h) (if poll then None else _ffi_cb h)
                             (_ffi_close_cb h) (_close_called h)]>
           (handles s))
        (alive s)
        (libuv_calls s ++ [uv_stop (uv_handle h)])
        (user_calls s)
  end.

(** What can happen to the module state between two calls. *)
Inductive op :=
| Op_init (handle : nat)
| Op_close (self : hid) (callback : option user_cb)
| Op_close_cb (self : hid) (callback : option user_cb) (raises : bool)
| Op_start (self : hid) (callback : user_cb)
| Op_stop (poll : bool) (self : hid).

Definition step (o : op) (s : state) : state :=
  match o with
  | Op_init handle => snd (__init__ handle s)
  | Op_close self callback => close self callback s
  | Op_close_cb self callback raises => close_cb_run self callback raises s
  | Op_start self callback => start self callback s
  | Op_stop poll self => stop poll self s
  end.

Definition run (ops : list op) (s : state) : state :=
  foldl (λ s o, step o s) s ops.

(** [close] has been called on the handle [self]. *)
Definition close_called (s : state) (self : hid) : Prop :=
  ∃ h, handles s !! self = Some h ∧ _close_called h = true.

End pyuv_cffi.

(** ** Small worlds and hub behaviours to run the model on *)

Module Examples.

Definition root_g : gid := 1%positive.
Definition hub_g : gid := 2%positive.
Definition task_g : gid := 3%positive.

Definition empty_registry : registry := mk_registry ∅ ∅.

(** A root greenlet, a hub greenlet and a task greenlet; the task runs. *)
Definition world (hub_dead : bool) (r : registry) : World :=
  mk_World
    (Hub.mk r hub_g false true)
    (<[root_g := greenlet.mk None false]>
       (<[hub_g := greenlet.mk (Some root_g) hub_dead]>
          (<[task_g := greenlet.mk (Some root_g) false]> ∅)))
    task_g ∅ [].

Definition w_live : World := world false empty_registry.
Definition w_dead : World := world true empty_registry.

(** The same world with the hub greenlet running. *)
Definition w_in_hub : World :=
  mk_World (hub w_live) (greenlets w_live) hub_g ∅ [].

(** The hub greenlet hangs below the running task, two levels down:
    root, task, a middle greenlet, hub. *)
Definition w_cycle : World :=
  mk_World
    (Hub.mk empty_registry hub_g false true)
    (<[root_g := greenlet.mk None false]>
       (<[task_g := greenlet.mk (Some root_g) false]>
          (<[4%positive := greenlet.mk (Some task_g) false]>
             (<[hub_g := greenlet.mk (Some 4%positive) false]> ∅))))
    task_g ∅ [].

Definition listener7 : AbstractListener.t := AbstractListener.mk READ 7 task_g.

(** A listener on (READ, 7) is already registered. *)
Definition w_listening : World :=
  world false (mk_registry (<[7%Z := Some listener7]> ∅) ∅).

(** The hub resumes the caller at once with [None]. *)
Definition resume_at_once : gid → M pyobj := λ _, ret PyNone.

(** While the caller waits, the hub greenlet [hg] ends (an exception
    escaped its loop) and control falls to the root greenlet; the root
    greenlet calls [switch], which replaces the dead hub greenlet, and the
    new hub greenlet resumes the caller with [None]. *)
Definition hub_dies_and_is_replaced (caller : gid) : gid → M pyobj :=
  λ hg w,
    let st := greenlets w in
    let ended := <[hg := greenlet.mk (greenlet.parent (st !!! hg)) true]> st in
    let in_root := mk_World (hub w) ended root_g (timers w) (callbacks w) in
    let w' := (AbstractHub.switch_enter in_root).2 in
    (Return PyNone, mk_World (hub w') (greenlets w') caller (timers w') (callbacks w')).

(** The hub runs until an armed timer fires: its callback is called with
    its arguments, and an exception thrown into the caller surfaces in
    the caller. *)
Definition timer_fires : gid → M pyobj :=
  λ _ w,
    match filter (λ kv, cancelled kv.2 = false) (map_to_list (timers w)) with
    | (_, tm) :: _ =>
        match call (timer_cb tm) (timer_args tm) with
        | ThrowInto g (Some e) =>
            if decide (g = current w) then (Raise e, w) else (Return PyNone, w)
        | _ => (Return PyNone, w)
        end
    | [] => (Return PyNone, w)
    end.

(** One open handle, known to the module. *)
Definition s_one_handle : pyuv_cffi.state :=
  pyuv_cffi.mk_state
    (<[1%positive := pyuv_cffi.mk_Handle 42 None None false]> ∅) [1%positive] [] [].

End Examples.

(** ** Further code of the same files *)

(** *** [AbstractHub.__init__] and runs of registry operations *)

Module AbstractHubInit.

(** [AbstractHub.__init__] (abc.py, lines 40-46), run in the current
    greenlet; the object it fills in becomes the hub of the world. *)
Definition __init__ : M unit :=
  do g <- greenlet_greenlet None;
  modify (set_hub (Hub.mk (mk_registry ∅ ∅) g false true)).

(** A call of [_add_listener] or [_remove_listener]. *)
Inductive registry_op :=
| Op_add (listener : AbstractListener.t)
| Op_remove (listener : AbstractListener.t).

(** The world a call leaves, whether it returns or raises. *)
Definition registry_step (o : registry_op) (w : World) : World :=
  match o with
  | Op_add listener => (AbstractHub._add_listener listener w).2
  | Op_remove listener => (AbstractHub._remove_listener listener w).2
  end.

Definition registry_run (ops : list registry_op) (w : World) : World :=
  foldl (λ w o, registry_step o w) w ops.

(** Every key of the registry holds a listener, never [None], and that
    listener carries the key it sits under. *)
Definition registry_consistent (w : World) : Prop :=
  ∀ e k v, registered w e k = Some v →
           ∃ l, v = Some l ∧ AbstractListener.evtype l = e ∧ AbstractListener.fd l = k.

(** The world with the bucket of [e] replaced. *)
Definition with_bucket (e : evtype_t) (b : gmap Z slot) (w : World) : World :=
  set_hub (Hub.set_listeners (set_bucket (Hub.listeners (hub w)) e b) (hub w)) w.

(** Nothing but parent links and new objects: what a step may do to the
    greenlet store. *)
Definition greenlets_kept (st st' : gmap gid greenlet.t) : Prop :=
  ∀ g o, st !! g = Some o →
         ∃ o', st' !! g = Some o' ∧ greenlet.dead o' = greenlet.dead o.

(** What the steps of [switch] leave alone. *)
Definition untouched (w w' : World) : Prop :=
  Hub.listeners (hub w') = Hub.listeners (hub w)
  ∧ Hub.stopping (hub w') = Hub.stopping (hub w)
  ∧ Hub._debug_exceptions (hub w') = Hub._debug_exceptions (hub w)
  ∧ timers w' = timers w
  ∧ callbacks w' = callbacks w
  ∧ current w' = current w
  ∧ greenlets_kept (greenlets w) (greenlets w').

End AbstractHubInit.

(** *** The greenlet store as a forest *)

Module forest.

(** Every greenlet object's parent chain stays in the store, never comes
    back to the object and ends at a greenlet without parent. *)
Definition wf_store (st : gmap gid greenlet.t) : Prop :=
  ∀ g o, st !! g = Some o →
         greenlet.rooted (size st) st g (greenlet.parent o) = true.

(** The greenlets a walk of [fuel] steps from [p] passes. *)
Fixpoint chain_list (fuel : nat) (st : gmap gid greenlet.t) (p : option gid) : list gid :=
  match fuel, p with
  | S n, Some q => q :: chain_list n st (greenlet.parent (st !!! q))
  | _, _ => []
  end.

(** What [switch] needs of a world and leaves in place: the store is a
    forest that holds the running greenlet and the hub's greenlet. *)
Definition hub_world_ok (w : World) : Prop :=
  wf_store (greenlets w)
  ∧ is_Some (greenlets w !! current w)
  ∧ is_Some (greenlets w !! Hub.greenlet (hub w)).

End forest.

(** *** [guv/green/thread.py] *)

Module green_thread.

(** [_count] (lines 17-18), reading the module global [__threadcount]. *)
Definition _count (__threadcount : Z) : Z := __threadcount.

(** [__thread_body] (lines 28-34). [func] stands for the call of
    the thread's function on its arguments: it sees the counter, may leave it changed
    (other thread bodies run while it waits), and returns or raises. *)
Definition __thread_body (func : Z → result pyobj * Z) (__threadcount : Z)
    : result unit * Z :=
  let c1 := (__threadcount + 1)%Z in
  let '(r, c2) := func c1 in
  (match r with
   | Return _ => Return tt
   | Raise e => Raise e
   end,
   (c2 - 1)%Z).

(** [n] thread bodies inside one another, [func] innermost. *)
Fixpoint nested (n : nat) (func : Z → result pyobj * Z) : Z → result pyobj * Z :=
  match n with
  | O => func
  | S k =>
      λ c, let '(r, c') := __thread_body (nested k func) c in
           (match r with
            | Return _ => Return PyNone
            | Raise e => Raise e
            end, c')
  end.

(** [stack_size] (lines 71-79). [orig] is [_thread.stack_size], called
    without argument ([None]) or with one, on the state [S] of the
    interpreter. *)
Definition stack_size {S : Type} (orig : option Z → S → result Z * S)
    (size : option Z) (s : S) : result (option Z) * S :=
  match size with
  | None =>
      match orig None s with
      | (Return v, s1) => (Return (Some v), s1)
      | (Raise e, s1) => (Raise e, s1)
      end
  | Some size =>
      match orig None s with
      | (Raise e, s1) => (Raise e, s1)
      | (Return cur, s1) =>
          if (size >? cur)%Z then
            match orig (Some size) s1 with
            | (Return v, s2) => (Return (Some v), s2)
            | (Raise e, s2) => (Raise e, s2)
            end
          else (Return None, s1)
      end
  end.

(** [_thread.stack_size] where the stack size can be set; the state is the
    configured size. As the Python documentation has it, "if size is not
    specified, 0 is used": the call without argument returns the configured
    size and resets it to 0, the platform's default. What a call with an
    argument does (which sizes are accepted differs between platforms) is
    left to [set]. *)
Definition thread_stack_size (set : Z → Z → result Z * Z)
    (arg : option Z) (s : Z) : result Z * Z :=
  match arg with
  | None => (Return s, 0%Z)
  | Some n => set n s
  end.

End green_thread.

(** *** [pyuv_cffi]: [Loop], [Poll.stop] and runs of the handle module *)

Module Loop.

(** An attribute value of a [Loop] object. *)
Inductive attr :=
| A_ptr (p : nat)           (* a [uv_loop_t *] *)
| A_bool (b : bool)
| A_list (l : list positive).

(** A [Loop] object: the attributes it has been given, by name. *)
Abbreviation obj := (gmap string attr).

(** Python truth of an attribute value (a null pointer is false). *)
Definition truthy (a : attr) : bool :=
  match a with
  | A_ptr p => negb (Nat.eqb p 0)
  | A_bool b => b
  | A_list l => match l with [] => false | _ => true end
  end.

Definition AttributeError (name : string) : exc :=
  OtherError ("AttributeError: " ++ name).

(** [Loop.__init__] (lines 37-40); [loop_h] is what [pyuv_loop_new]
    returned. *)
Definition __init__ (loop_h : nat) : obj :=
  <["_handles" := A_list []]>
    (<["_loop_h_allocated" := A_bool true]>
       (<["loop_h" := A_ptr loop_h]> ∅)).

(** [Loop.default_loop] (lines 42-47): [Loop.__new__] gives an object
    without attributes; [loop_h] is what [uv_default_loop] returned. *)
Definition default_loop (loop_h : nat) : obj :=
  <["loop_h_allocated" := A_bool false]>
    (<["loop_h" := A_ptr loop_h]> ∅).

(** The property [handles] (lines 53-56). *)
Definition handles (self : obj) : result attr :=
  match self !! "_handles" with
  | Some a => Return a
  | None => Raise (AttributeError "_handles")
  end.

(** [Loop._free] (lines 64-67); the list holds the pointers handed to
    [pyuv_loop_del], oldest first. *)
Definition _free (self : obj) (deleted : list attr) : result unit * (obj * list attr) :=
  match self !! "_loop_h_allocated" with
  | None => (Raise (AttributeError "_loop_h_allocated"), (self, deleted))
  | Some a =>
      if truthy a then
        match self !! "loop_h" with
        | None => (Raise (AttributeError "loop_h"), (self, deleted))
        | Some h =>
            (Return tt,
             (<["_loop_h_allocated" := A_bool false]> self, deleted ++ [h]))
        end
      else (Return tt, (self, deleted))
  end.

End Loop.

Module Poll.

(** A [Poll] object: the attributes of [Handle] and its own. *)
Record t := mk {
  base : pyuv_cffi.Handle;
  fd : Z;
  _stop_called : bool
}.

(** [Poll.stop] (lines 237-246). [err] is what [uv_poll_stop] returns;
    the list holds the handles [uv_poll_stop] was called on. *)
Definition stop (err : Z) (self : t) (stopped : list nat)
    : result unit * (t * list nat) :=
  if _stop_called self then (Return tt, (self, stopped))
  else
    let h := base self in
    let stopped' := stopped ++ [pyuv_cffi.uv_handle h] in
    let self1 :=
      mk (pyuv_cffi.mk_Handle (pyuv_cffi.uv_handle h) None
            (pyuv_cffi._ffi_close_cb h) (pyuv_cffi._close_called h))
         (fd self) (_stop_called self) in
    if (err <? 0)%Z
    then (Raise (OtherError "Exception: uv_poll_stop() failed"), (self1, stopped'))
    else (Return tt, (mk (base self1) (fd self1) true, stopped')).

End Poll.

Module HandleRuns.

Import pyuv_cffi.

(** The module state at import time: [alive = []], no handle yet. *)
Definition initial : state := mk_state ∅ [] [] [].





(** libuv fires a close callback only when it is the one [close] gave it
    for that handle; every other operation can happen at any time. *)
Definition enabled (o : op) (s : state) : Prop :=
  match o with
  | Op_close_cb self callback _ =>
      ∃ h, handles s !! self = Some h
           ∧ _ffi_close_cb h = Some (close_cb_wrapper self callback)
  | _ => True
  end.

(** Runs of the module in which libuv behaves. *)
Inductive run_ok : list op → state → state → Prop :=
| run_ok_nil s : run_ok [] s s
| run_ok_cons o ops s s' :
    enabled o s → run_ok ops (step o s) s' → run_ok (o :: ops) s s'.


(** Every handle not yet closed is in [alive], and a handle that holds a
    close callback has been closed. *)
Definition alive_ok (s : state) : Prop :=
  (∀ self h, handles s !! self = Some h → _close_called h = false → self ∈ alive s)
  ∧ (∀ self h, handles s !! self = Some h → is_Some (_ffi_close_cb h) →
               _close_called h = true).

End HandleRuns.

(** *** More worlds to run the model on *)

Module Examples2.

Import Examples.

(** The hub greenlet is dead and has a child besides the task. *)
Definition w_dead_child : World :=
  mk_World
    (Hub.mk empty_registry hub_g false true)
    (<[root_g := greenlet.mk None false]>
       (<[hub_g := greenlet.mk (Some root_g) true]>
          (<[task_g := greenlet.mk (Some root_g) false]>
             (<[5%positive := greenlet.mk (Some hub_g) false]> ∅))))
    task_g ∅ [].

(** A function that raises and leaves the counter as it found it. *)
Definition failing_func : Z → result pyobj * Z :=
  λ c, (Raise (OtherError "boom"), c).

Definition poll0 : Poll.t :=
  Poll.mk (pyuv_cffi.mk_Handle 9 (Some (pyuv_cffi.start_cb_wrapper 1%positive "on_event"))
             None false) 5%Z false.

End Examples2.

(** * Properties *)

(** ** The listener registry *)

Section registry_facts.

Implicit Types (r : registry) (e : evtype_t) (b : gmap Z slot).

Lemma bucket_set_bucket_eq r e b : bucket (set_bucket r e b) e = b.
Proof. by destruct e. Qed.

Lemma bucket_set_bucket_ne r e e' b :
  e ≠ e' → bucket (set_bucket r e b) e' = bucket r e'.
Proof. by destruct e, e'. Qed.

End registry_facts.

Section listener_registry.

Import AbstractHub.

Implicit Types (w : World) (l : AbstractListener.t).

Lemma registered_setitem w e k v e' k' :
  registered (bucket_setitem e k v w).2 e' k'
  = if decide (e = e' ∧ k = k') then Some v else registered w e' k'.
Proof.
  unfold registered, bucket_setitem, modify; simpl.
  case_decide as H.
  - destruct H as [-> ->]. by rewrite bucket_set_bucket_eq, lookup_insert_eq.
  - destruct (decide (e = e')) as [->|Hne].
    + rewrite bucket_set_bucket_eq, lookup_insert_ne; [done|].
      intros ->. by apply H.
    + by rewrite bucket_set_bucket_ne.
Qed.

Lemma bucket_delitem_present w e k v :
  registered w e k = Some v →
  ∃ w', bucket_delitem e k w = (Return tt, w') ∧
        greenlets w' = greenlets w ∧ current w' = current w ∧
        timers w' = timers w ∧ callbacks w' = callbacks w ∧
        Hub.greenlet (hub w') = Hub.greenlet (hub w) ∧
        ∀ e' k', registered w' e' k'
                 = if decide (e = e' ∧ k = k') then None else registered w e' k'.
Proof.
  unfold registered, bucket_delitem. intros ->.
  eexists; split; [done|]. simpl. repeat split.
  intros e' k'. case_decide as H.
  - destruct H as [-> ->]. by rewrite bucket_set_bucket_eq, lookup_delete_eq.
  - destruct (decide (e = e')) as [->|Hne].
    + rewrite bucket_set_bucket_eq, lookup_delete_ne; [done|].
      intros ->. by apply H.
    + by rewrite bucket_set_bucket_ne.
Qed.

(** One removal: the key is gone, no exception, nothing else moves. *)
Lemma remove_listener_once w l :
  ∃ w', _remove_listener l w = (Return tt, w') ∧
        greenlets w' = greenlets w ∧ current w' = current w ∧
        timers w' = timers w ∧ callbacks w' = callbacks w ∧
        Hub.greenlet (hub w') = Hub.greenlet (hub w) ∧
        ∀ e k, registered w' e k
               = if decide (AbstractListener.evtype l = e ∧ AbstractListener.fd l = k)
                 then None else registered w e k.
Proof.
  unfold _remove_listener, bind.
  set (e0 := AbstractListener.evtype l). set (k0 := AbstractListener.fd l).
  destruct (bucket_setitem e0 k0 None w) as [r w1] eqn:E1.
  assert (r = Return tt ∧ w1 = (bucket_setitem e0 k0 None w).2) as [-> Hw1].
  { rewrite E1. unfold bucket_setitem, modify in E1. by inversion E1. }
  destruct (bucket_delitem_present w1 e0 k0 None) as (w' & Hdel & Hg & Hc & Ht & Hq & Hhg & Hreg).
  { rewrite Hw1, registered_setitem. by rewrite decide_True. }
  exists w'. split; [done|].
  rewrite Hg, Hc, Ht, Hq, Hhg, Hw1. repeat split.
  intros e k. rewrite Hreg, Hw1, registered_setitem. by case_decide.
Qed.

(** C1. If the registry already holds a listener for (evtype, fd), adding
    another listener for the same pair raises the RuntimeError at once and
    changes nothing: the registry (indeed the whole world) is the one
    before the call, so the pair is still bound to the first listener.
    The same holds for the hub's [add], which goes through
    [_add_listener]. *)
Theorem add_listener_duplicate_raises w (first another : AbstractListener.t) :
  let e := AbstractListener.evtype another in
  let k := AbstractListener.fd another in
  registered w e k = Some (Some first) →
  _add_listener another w = (Raise (RuntimeError_Multiple e k), w)
  ∧ (∀ cb tb, ConcreteHub.add e k cb tb w = (Raise (RuntimeError_Multiple e k), w))
  ∧ registered (_add_listener another w).2 e k = Some (Some first).
Proof.
  intros e k Hreg.
  assert (_add_listener another w = (Raise (RuntimeError_Multiple e k), w)) as Hadd.
  { unfold _add_listener, bind, gets, raise. fold e k.
    unfold registered in Hreg. rewrite Hreg.
    by rewrite bool_decide_eq_true_2. }
  split; [done|]. split.
  - intros cb tb. unfold ConcreteHub.add, bind, getcurrent, gets.
    unfold _add_listener, bind, gets, raise. simpl.
    unfold registered in Hreg. rewrite Hreg.
    by rewrite bool_decide_eq_true_2.
  - by rewrite Hadd.
Qed.

(** C8. Removing the same listener twice in a row raises nothing and
    leaves a sound registry: no entry for the listener's (evtype, fd),
    every other entry as it was before the two removals, and the rest of
    the world untouched. *)
Theorem remove_listener_twice w l :
  ∃ w2, (do_ _remove_listener l; _remove_listener l) w = (Return tt, w2)
    ∧ registered w2 (AbstractListener.evtype l) (AbstractListener.fd l) = None
    ∧ (∀ e k, (e, k) ≠ (AbstractListener.evtype l, AbstractListener.fd l) →
              registered w2 e k = registered w e k)
    ∧ greenlets w2 = greenlets w ∧ timers w2 = timers w
    ∧ callbacks w2 = callbacks w ∧ current w2 = current w
    ∧ Hub.greenlet (hub w2) = Hub.greenlet (hub w).
Proof.
  destruct (remove_listener_once w l) as (w1 & E1 & Hg1 & Hc1 & Ht1 & Hq1 & Hh1 & Hr1).
  destruct (remove_listener_once w1 l) as (w2 & E2 & Hg2 & Hc2 & Ht2 & Hq2 & Hh2 & Hr2).
  exists w2. unfold bind at 1. rewrite E1, E2. split; [done|].
  split; [|split].
  - rewrite Hr2. by rewrite decide_True.
  - intros e k Hne. rewrite Hr2, Hr1.
    rewrite !decide_False; [done|intros [? ?]; congruence..].
  - by rewrite Hg2, Hg1, Ht2, Ht1, Hq2, Hq1, Hc2, Hc1, Hh2, Hh1.
Qed.

End listener_registry.

(** ** Parent chains *)

Section parent_chains.

Import greenlet.

Implicit Types (st : gmap gid greenlet.t) (p : option gid).

(** A chain that ends at the root without passing through [self] does
    not contain [self], whatever the fuel of the walk. *)
Lemma rooted_not_in_chain m : ∀ n st self p,
  rooted n st self p = true → in_chain m st self p = false.
Proof.
  induction m as [|m IH]; intros n st self p Hroot; [done|].
  destruct p as [q|]; [|done]. simpl.
  destruct n as [|n]; [done|]. simpl in Hroot.
  destruct (decide (q = self)); [done|].
  destruct (st !! q) as [o|] eqn:Hq; [|done].
  rewrite (lookup_total_correct st q o Hq). by eapply IH.
Qed.

(** Along a rooted chain the walk only reads objects of the store, none
    of them [self]: a store that agrees on those gives the same answer,
    and so does any fuel that covers the chain. *)
Lemma rooted_in_chain_agree n : ∀ st st' self x p m m',
  rooted n st self p = true →
  (∀ q, q ≠ self → is_Some (st !! q) → st' !! q = st !! q) →
  (n ≤ m)%nat → (n ≤ m')%nat →
  in_chain m st' x p = in_chain m' st x p.
Proof.
  induction n as [|n IH]; intros st st' self x p m m' Hroot Hagree Hm Hm'.
  - destruct p; [done|]. by destruct m, m'.
  - destruct p as [q|]; [|by destruct m, m'].
    simpl in Hroot.
    destruct (decide (q = self)) as [|Hne]; [done|].
    destruct (st !! q) as [o|] eqn:Hq; [|done].
    destruct m as [|m]; [lia|]. destruct m' as [|m']; [lia|]. simpl.
    destruct (decide (q = x)); [done|].
    assert (st' !! q = Some o) as Hq' by (rewrite Hagree; eauto).
    rewrite (lookup_total_correct st q o Hq), (lookup_total_correct st' q o Hq').
    eapply IH; eauto; lia.
Qed.

End parent_chains.

(** ** Running the monad *)

Section monad_steps.

Context {A B : Type}.

Lemma bind_gets (f : World → A) (k : A → M B) w :
  bind (gets f) k w = k (f w) w.
Proof. done. Qed.

Lemma bind_ret (a : A) (k : A → M B) w : bind (ret a) k w = k a w.
Proof. done. Qed.

Lemma bind_raise (e : exc) (k : A → M B) w : bind (raise e) k w = (Raise e, w).
Proof. done. Qed.

Lemma bind_modify (f : World → World) (k : unit → M B) w :
  bind (modify f) k w = k tt (f w).
Proof. done. Qed.

Lemma bind_Return (m : M A) (k : A → M B) w a w' :
  m w = (Return a, w') → bind m k w = k a w'.
Proof. unfold bind. by intros ->. Qed.

Lemma bind_Raise (m : M A) (k : A → M B) w e w' :
  m w = (Raise e, w') → bind m k w = (Raise e, w').
Proof. unfold bind. by intros ->. Qed.

End monad_steps.

Lemma set_parent_Return self nparent w :
  greenlet.in_chain (S (size (greenlets w))) (greenlets w) self (Some nparent) = false →
  set_parent self nparent w
  = (Return tt,
     set_greenlets (<[self := greenlet.with_parent nparent (greenlets w !!! self)]>
                      (greenlets w)) w).
Proof. unfold set_parent. by intros ->. Qed.

Lemma set_parent_Raise self nparent w :
  greenlet.in_chain (S (size (greenlets w))) (greenlets w) self (Some nparent) = true →
  set_parent self nparent w = (Raise (ValueError "cyclic parent chain"), w).
Proof. unfold set_parent. by intros ->. Qed.

(** ** [ensure_greenlet] and [switch] *)

Section hub_greenlet.

Import AbstractHub.

Implicit Types (w : World).

Lemma ensure_greenlet_alive w :
  greenlet.dead (greenlets w !!! Hub.greenlet (hub w)) = false →
  ensure_greenlet w = (Return tt, w).
Proof.
  intros Hd. unfold ensure_greenlet, hub_greenlet, get_dead.
  rewrite !bind_gets. by rewrite Hd.
Qed.

Lemma ensure_greenlet_dead w o p :
  let old := Hub.greenlet (hub w) in
  let st := greenlets w in
  let new := fresh (dom st) in
  st !! old = Some o →
  greenlet.dead o = true →
  greenlet.parent o = Some p →
  greenlet.rooted (size st) st old (Some p) = true →
  ensure_greenlet w
  = (Return tt,
     set_hub (Hub.set_greenlet new (hub w))
       (set_greenlets
          (<[old := greenlet.mk (Some new) true]>
             (<[new := greenlet.mk (Some p) false]> st)) w)).
Proof.
  intros old st new Ho Hd Hp Hroot.
  assert (st !! new = None) as Hnew.
  { apply not_elem_of_dom. apply is_fresh. }
  assert (new ≠ old) as Hne by (intros E; rewrite E in Hnew; congruence).
  unfold ensure_greenlet, hub_greenlet, get_dead, get_parent.
  rewrite !bind_gets. fold old st.
  rewrite (lookup_total_correct st old o Ho), Hd, bind_gets. fold old st.
  rewrite (lookup_total_correct st old o Ho), Hp.
  set (w1 := set_greenlets (<[new := greenlet.mk (Some p) false]> st) w).
  change (bind (greenlet_greenlet (Some p)) ?k w) with (k new w1).
  cbv beta.
  assert (greenlets w1 !!! old = o) as Ho1.
  { unfold w1; simpl. rewrite lookup_total_insert_ne by done.
    by apply lookup_total_correct. }
  erewrite bind_Return; last first.
  { apply set_parent_Return. simpl.
    rewrite decide_False by done.
    rewrite lookup_total_insert_eq. simpl.
    rewrite (rooted_in_chain_agree (size st) st _ old old (Some p) _ (size st) Hroot);
      [by eapply rooted_not_in_chain| |rewrite map_size_insert_None by done; lia|lia].
    intros q Hq [x Hx]. rewrite lookup_insert_ne; [done|].
    intros E. rewrite <- E in Hx. congruence. }
  rewrite Ho1. unfold greenlet.with_parent. rewrite Hd.
  done.
Qed.

(** What [ensure_greenlet] leaves behind, as [switch] needs it: a live
    hub greenlet, and a parent chain of that greenlet which holds the
    caller exactly when the caller was an ancestor of the old one. *)
Lemma ensure_greenlet_for_switch w :
  let cur := current w in
  let old := Hub.greenlet (hub w) in
  let st := greenlets w in
  cur ≠ old →
  is_Some (st !! cur) →
  (greenlet.dead (st !!! old) = true → greenlet.well_parented st old = true) →
  ∃ w0, ensure_greenlet w = (Return tt, w0)
    ∧ current w0 = cur
    ∧ callbacks w0 = callbacks w ∧ timers w0 = timers w
    ∧ Hub.listeners (hub w0) = Hub.listeners (hub w)
    ∧ greenlet.dead (greenlets w0 !!! Hub.greenlet (hub w0)) = false
    ∧ Hub.greenlet (hub w0) ≠ cur
    ∧ greenlet.in_chain (S (size (greenlets w0))) (greenlets w0) cur
        (Some (Hub.greenlet (hub w0))) = greenlet.is_ancestor st cur old
    ∧ (greenlet.parent (greenlets w0 !!! Hub.greenlet (hub w0)) = Some cur →
       greenlet.is_ancestor st cur old = true).
Proof.
  intros cur old st Hne [c Hc] Hwf.
  assert (size st ≠ O) as Hsize.
  { intros E. apply map_size_empty_inv in E. rewrite E in Hc.
    by rewrite lookup_empty in Hc. }
  destruct (greenlet.dead (st !!! old)) eqn:Hd.
  - specialize (Hwf eq_refl). unfold greenlet.well_parented in Hwf.
    destruct (st !! old) as [o|] eqn:Ho; [|done].
    destruct (greenlet.parent o) as [p|] eqn:Hp; [|done].
    rewrite (lookup_total_correct st old o Ho) in Hd.
    pose proof (ensure_greenlet_dead w o p Ho Hd Hp Hwf) as Hens.
    cbv zeta in Hens. fold st old in Hens.
    set (new := fresh (dom st)) in *.
    assert (st !! new = None) as Hnew.
    { apply not_elem_of_dom. apply is_fresh. }
    assert (new ≠ old) as Hno by (intros E; rewrite E in Hnew; congruence).
    assert (new ≠ cur) as Hnc by (intros E; rewrite E in Hnew; congruence).
    eexists. split; [exact Hens|]. simpl.
    set (st0 := <[old := _]> _).
    assert (st0 !!! new = greenlet.mk (Some p) false) as Hnew0.
    { unfold st0. rewrite lookup_total_insert_ne by done.
      by rewrite lookup_total_insert_eq. }
    assert (∀ m, (size st ≤ m)%nat →
                 greenlet.in_chain m st0 cur (Some p) = greenlet.is_ancestor st cur old)
      as Hchain.
    { intros m Hm. unfold greenlet.is_ancestor.
      rewrite (lookup_total_correct st old o Ho), Hp.
      apply (rooted_in_chain_agree (size st) st st0 old cur (Some p) m (size st) Hwf);
        [|lia..].
      intros q Hq [x Hx]. unfold st0.
      rewrite lookup_insert_ne by done. rewrite lookup_insert_ne; [done|].
      intros E. rewrite <- E in Hx. congruence. }
    rewrite Hnew0. simpl. repeat split; try done.
    + rewrite decide_False by done. apply Hchain.
      unfold st0. rewrite map_size_insert_Some.
      * rewrite map_size_insert_None by done. lia.
      * rewrite lookup_insert_ne by done. eauto.
    + intros [= ->]. rewrite <- (Hchain (size st)) by lia.
      destruct (size st); [done|]. simpl. by rewrite decide_True.
  - exists w. rewrite ensure_greenlet_alive by done. fold st old cur.
    repeat split; try done.
    + simpl. by rewrite decide_False.
    + intros Hp. unfold greenlet.is_ancestor. rewrite Hp.
      destruct (size st); [done|]. simpl. by rewrite decide_True.
Qed.

Lemma switch_enter_unfold w :
  current w ≠ Hub.greenlet (hub w) →
  switch_enter w = (do_ ensure_greenlet; reparent (current w)) w.
Proof.
  intros Hne. unfold switch_enter, getcurrent, hub_greenlet.
  rewrite !bind_gets. by rewrite bool_decide_eq_true_2.
Qed.

Lemma reparent_run w0 cur :
  let hg := Hub.greenlet (hub w0) in
  let st0 := greenlets w0 in
  (greenlet.parent (st0 !!! hg) = Some cur →
   greenlet.in_chain (S (size st0)) st0 cur (Some hg) = true) →
  reparent cur w0
  = (Return tt,
     if greenlet.in_chain (S (size st0)) st0 cur (Some hg) then w0
     else set_greenlets (<[cur := greenlet.with_parent hg (st0 !!! cur)]> st0) w0).
Proof.
  intros hg st0 Hp.
  unfold reparent, except_ValueError_pass, hub_greenlet, get_parent.
  rewrite !bind_gets. fold hg st0.
  case_bool_decide as Hpar.
  - destruct (greenlet.in_chain (S (size st0)) st0 cur (Some hg)) eqn:Hchain.
    + by rewrite set_parent_Raise.
    + by rewrite set_parent_Return.
  - by rewrite (Hp Hpar).
Qed.

(** Whatever the store looks like, the steps of [switch] that follow the
    assertion end normally or with the ValueError of a parent cycle. *)
Lemma ensure_greenlet_outcome w :
  ∃ w', ensure_greenlet w = (Return tt, w')
        ∨ ∃ msg, ensure_greenlet w = (Raise (ValueError msg), w').
Proof.
  unfold ensure_greenlet, hub_greenlet, get_dead, get_parent.
  rewrite !bind_gets. destruct (greenlet.dead _); [|by eexists; left].
  rewrite bind_gets.
  set (p := greenlet.parent _).
  destruct (greenlet_greenlet p w) as [r w1] eqn:E1.
  assert (∃ new, r = Return new) as [new ->].
  { unfold greenlet_greenlet in E1. inversion E1. eauto. }
  rewrite (bind_Return _ _ _ _ _ E1).
  destruct (greenlet.in_chain (S (size (greenlets w1))) (greenlets w1)
              (Hub.greenlet (hub w)) (Some new)) eqn:Hchain.
  - rewrite (bind_Raise _ _ _ _ _ (set_parent_Raise _ _ _ Hchain)).
    eexists. right. by eexists.
  - rewrite (bind_Return _ _ _ _ _ (set_parent_Return _ _ _ Hchain)).
    eexists. by left.
Qed.

Lemma reparent_outcome w cur : ∃ w', reparent cur w = (Return tt, w').
Proof.
  unfold reparent, except_ValueError_pass, hub_greenlet, get_parent.
  rewrite !bind_gets. case_bool_decide; [|by eexists].
  unfold set_parent. destruct (greenlet.in_chain _ _ _ _); by eexists.
Qed.

(** C4. When the hub's greenlet is dead, [ensure_greenlet] makes a new
    greenlet object whose parent is the dead greenlet's parent, makes the
    new greenlet the parent of the dead one, and stores the new, live
    greenlet in the hub's [greenlet] attribute; every other greenlet and
    the rest of the world stay as they were. When the hub's greenlet is
    not dead, nothing changes at all. (The dead greenlet is one made by
    the constructor: it has a parent and its parent chain ends at the
    root.) *)
Theorem ensure_greenlet_resurrects w :
  let old := Hub.greenlet (hub w) in
  let st := greenlets w in
  (greenlet.dead (st !!! old) = true →
   greenlet.well_parented st old = true →
   ∃ new w',
     ensure_greenlet w = (Return tt, w')
     ∧ st !! new = None
     ∧ greenlets w' !! new = Some (greenlet.mk (greenlet.parent (st !!! old)) false)
     ∧ greenlets w' !! old = Some (greenlet.mk (Some new) true)
     ∧ Hub.greenlet (hub w') = new
     ∧ (∀ g, g ≠ new → g ≠ old → greenlets w' !! g = st !! g)
     ∧ Hub.listeners (hub w') = Hub.listeners (hub w)
     ∧ Hub.stopping (hub w') = Hub.stopping (hub w)
     ∧ Hub._debug_exceptions (hub w') = Hub._debug_exceptions (hub w)
     ∧ current w' = current w ∧ timers w' = timers w
     ∧ callbacks w' = callbacks w)
  ∧ (greenlet.dead (st !!! old) = false → ensure_greenlet w = (Return tt, w)).
Proof.
  intros old st. split; [|apply ensure_greenlet_alive].
  intros Hd Hwf. unfold greenlet.well_parented in Hwf.
  destruct (st !! old) as [o|] eqn:Ho; [|done].
  destruct (greenlet.parent o) as [p|] eqn:Hp; [|done].
  rewrite (lookup_total_correct st old o Ho) in Hd |- *.
  pose proof (ensure_greenlet_dead w o p Ho Hd Hp Hwf) as Hens.
  cbv zeta in Hens. fold st old in Hens.
  set (new := fresh (dom st)) in *.
  assert (st !! new = None) as Hnew.
  { apply not_elem_of_dom. apply is_fresh. }
  assert (new ≠ old) as Hno by (intros E; rewrite E in Hnew; congruence).
  exists new. eexists. split; [exact Hens|]. simpl.
  split; [done|]. split.
  { rewrite lookup_insert_ne by done. by rewrite lookup_insert_eq, Hp. }
  split; [by rewrite lookup_insert_eq|]. split; [done|]. split; [|done].
  intros g Hgn Hgo. by rewrite !lookup_insert_ne.
Qed.

(** C6. [switch] asks that the caller is not the hub's greenlet. When it
    is not, the assertion passes: the call either reaches line 120 and
    ends as the switch into the hub greenlet ends, or stops before with
    the ValueError of a parent cycle out of [ensure_greenlet]; the steps
    of [switch] itself never end with an AssertionError. When the hub's
    greenlet itself calls [switch], the call ends with the
    AssertionError, whatever the hub would do: no switch is made and
    nothing has changed. *)
Theorem switch_assertion (greenlet_switch : gid → M pyobj) w :
  (current w ≠ Hub.greenlet (hub w) →
   (∀ msg w', switch_enter w ≠ (Raise (AssertionError msg), w'))
   ∧ ((∃ w1, switch_enter w = (Return tt, w1)
             ∧ switch greenlet_switch w
               = greenlet_switch (Hub.greenlet (hub w1)) w1)
      ∨ (∃ msg w', switch greenlet_switch w = (Raise (ValueError msg), w')
                   ∧ ensure_greenlet w = (Raise (ValueError msg), w'))))
  ∧ (current w = Hub.greenlet (hub w) →
     switch greenlet_switch w
     = (Raise (AssertionError "Cannot switch to the hub from the hub"), w)).
Proof.
  split.
  - intros Hne.
    destruct (ensure_greenlet_outcome w) as [w0 [E|[m E]]].
    + destruct (reparent_outcome w0 (current w)) as [w1 Hrep].
      assert (switch_enter w = (Return tt, w1)) as Henter.
      { rewrite switch_enter_unfold by done. by rewrite (bind_Return _ _ _ _ _ E). }
      split; [intros msg w'; rewrite Henter; congruence|].
      left. exists w1. split; [done|].
      unfold switch. rewrite (bind_Return _ _ _ _ _ Henter).
      unfold hub_greenlet. by rewrite bind_gets.
    + assert (switch_enter w = (Raise (ValueError m), w0)) as Henter.
      { rewrite switch_enter_unfold by done. by rewrite (bind_Raise _ _ _ _ _ E). }
      split; [intros msg w'; rewrite Henter; congruence|].
      right. exists m, w0. split; [|done].
      unfold switch. by rewrite (bind_Raise _ _ _ _ _ Henter).
  - intros Heq. unfold switch, switch_enter, getcurrent, hub_greenlet.
    unfold bind at 1. rewrite !bind_gets.
    by rewrite bool_decide_eq_false_2 by (intros H; apply H, Heq).
Qed.

(** [switch] called by a greenlet other than the hub's, step by step. *)
Lemma switch_run w :
  let cur := current w in
  let old := Hub.greenlet (hub w) in
  let st := greenlets w in
  cur ≠ old →
  is_Some (st !! cur) →
  (greenlet.dead (st !!! old) = true → greenlet.well_parented st old = true) →
  ∃ w1,
    switch_enter w = (Return tt, w1)
    ∧ (∀ greenlet_switch : gid → M pyobj,
         switch greenlet_switch w = greenlet_switch (Hub.greenlet (hub w1)) w1)
    ∧ current w1 = cur
    ∧ callbacks w1 = callbacks w ∧ timers w1 = timers w
    ∧ Hub.listeners (hub w1) = Hub.listeners (hub w)
    ∧ Hub.greenlet (hub w1) ≠ cur
    ∧ greenlet.dead (greenlets w1 !!! Hub.greenlet (hub w1)) = false
    ∧ (greenlet.dead (st !!! old) = false → Hub.greenlet (hub w1) = old)
    ∧ (greenlet.dead (st !!! old) = true → st !! Hub.greenlet (hub w1) = None)
    ∧ (greenlet.is_ancestor st cur old = false →
       greenlet.parent (greenlets w1 !!! cur) = Some (Hub.greenlet (hub w1)))
    ∧ (greenlet.is_ancestor st cur old = true →
       greenlet.parent (greenlets w1 !!! cur) = greenlet.parent (st !!! cur)).
Proof.
  intros cur old st Hne Hcur Hwf.
  destruct (ensure_greenlet_for_switch w Hne Hcur Hwf)
    as (w0 & Hens & Hc0 & Hq0 & Ht0 & Hl0 & Hlive & Hhc & Hchain & Hpar).
  fold cur old st in Hc0, Hhc, Hchain, Hpar.
  assert (switch_enter w
          = (Return tt,
             if greenlet.is_ancestor st cur old then w0
             else set_greenlets
                    (<[cur := greenlet.with_parent (Hub.greenlet (hub w0))
                                (greenlets w0 !!! cur)]> (greenlets w0)) w0)) as Henter.
  { rewrite switch_enter_unfold by done. rewrite (bind_Return _ _ _ _ _ Hens).
    fold cur. rewrite reparent_run; [by rewrite Hchain|].
    intros Hp. rewrite Hchain. by apply Hpar. }
  eexists. split; [exact Henter|].
  split.
  { intros gs. unfold switch. rewrite (bind_Return _ _ _ _ _ Henter).
    unfold hub_greenlet. by rewrite bind_gets. }
  assert (greenlet.dead (st !!! old) = false → Hub.greenlet (hub w0) = old ∧ greenlets w0 = st)
    as Halive.
  { intros Hd. rewrite ensure_greenlet_alive in Hens by done.
    by injection Hens as <-. }
  assert (greenlet.dead (st !!! old) = true → st !! Hub.greenlet (hub w0) = None) as Hdead.
  { intros Hd. specialize (Hwf Hd). unfold greenlet.well_parented in Hwf.
    destruct (st !! old) as [o|] eqn:Ho; [|done].
    destruct (greenlet.parent o) as [p|] eqn:Hp; [|done].
    rewrite (lookup_total_correct st old o Ho) in Hd.
    rewrite (ensure_greenlet_dead w o p Ho Hd Hp Hwf) in Hens.
    injection Hens as <-. simpl. apply not_elem_of_dom, is_fresh. }
  assert (greenlet.is_ancestor st cur old = true →
          greenlets w0 !!! cur = st !!! cur) as Hsame.
  { intros _. destruct (greenlet.dead (st !!! old)) eqn:Hd.
    - specialize (Hwf eq_refl). unfold greenlet.well_parented in Hwf.
      destruct (st !! old) as [o|] eqn:Ho; [|done].
      destruct (greenlet.parent o) as [p|] eqn:Hp; [|done].
      rewrite (lookup_total_correct st old o Ho) in Hd.
      rewrite (ensure_greenlet_dead w o p Ho Hd Hp Hwf) in Hens.
      injection Hens as <-. simpl. fold st old.
      rewrite lookup_total_insert_ne by done.
      rewrite lookup_total_insert_ne; [done|].
      intros E. destruct Hcur as [c Hc]. fold st in E.
      pose proof (is_fresh (dom st)) as Hf. rewrite E in Hf.
      apply Hf, elem_of_dom. eauto.
    - by destruct (Halive eq_refl) as [_ ->]. }
  destruct (greenlet.is_ancestor st cur old) eqn:Hanc; simpl.
  - repeat split; try done.
    + intros Hd. by apply Halive.
    + intros _. by rewrite Hsame.
  - repeat split; try done.
    + by rewrite lookup_total_insert_ne.
    + intros Hd. by apply Halive.
    + intros _. by rewrite lookup_total_insert_eq.
Qed.

(** A greenlet under a hub greenlet that has died: once [ensure_greenlet]
    has replaced the hub greenlet, the greenlet still has the dead one as
    its parent, and on exit control goes through the dead one to the new
    hub greenlet. *)
Lemma exit_after_resurrection w cur :
  let old := Hub.greenlet (hub w) in
  let st := greenlets w in
  greenlet.parent (st !!! cur) = Some old →
  cur ≠ old →
  greenlet.dead (st !!! old) = true →
  greenlet.well_parented st old = true →
  ∃ w', ensure_greenlet w = (Return tt, w')
    ∧ Hub.greenlet (hub w') ≠ old
    ∧ greenlet.dead (greenlets w' !!! Hub.greenlet (hub w')) = false
    ∧ greenlet.dead (greenlets w' !!! old) = true
    ∧ greenlet.parent (greenlets w' !!! cur) = Some old
    ∧ greenlet.exit_target (size (greenlets w')) (greenlets w')
        (greenlet.parent (greenlets w' !!! cur))
      = Some (Hub.greenlet (hub w')).
Proof.
  intros old st Hpar Hne Hd Hwf.
  unfold greenlet.well_parented in Hwf.
  destruct (st !! old) as [o|] eqn:Ho; [|done].
  destruct (greenlet.parent o) as [p|] eqn:Hp; [|done].
  rewrite (lookup_total_correct st old o Ho) in Hd.
  pose proof (ensure_greenlet_dead w o p Ho Hd Hp Hwf) as Hens. cbv zeta in Hens.
  fold st old in Hens.
  set (new := fresh (dom st)) in *.
  assert (st !! new = None) as Hnew by apply not_elem_of_dom, is_fresh.
  assert (new ≠ old) as Hno by (intros E; rewrite E in Hnew; congruence).
  assert (new ≠ cur) as Hnc.
  { intros E. rewrite <- E in Hpar. rewrite lookup_total_alt, Hnew in Hpar. done. }
  eexists. split; [exact Hens|]. simpl.
  set (st' := <[old := greenlet.mk (Some new) true]>
                (<[new := greenlet.mk (Some p) false]> st)).
  assert (st' !!! cur = st !!! cur) as Hcur.
  { unfold st'. rewrite lookup_total_insert_ne by done.
    by rewrite lookup_total_insert_ne. }
  assert (st' !!! old = greenlet.mk (Some new) true) as Hold
    by (unfold st'; by rewrite lookup_total_insert_eq).
  assert (st' !!! new = greenlet.mk (Some p) false) as Hnew'.
  { unfold st'. rewrite lookup_total_insert_ne by done.
    by rewrite lookup_total_insert_eq. }
  split; [done|]. split; [by rewrite Hnew'|]. split; [by rewrite Hold|].
  split; [by rewrite Hcur|].
  rewrite Hcur, Hpar.
  assert (size st' = S (size st)) as Hsize.
  { unfold st'. rewrite map_size_insert_Some, map_size_insert_None; [done|done|].
    rewrite lookup_insert_ne by done. by rewrite Ho. }
  assert (size st ≠ 0%nat) as Hpos.
  { intros E. apply map_size_empty_inv in E. rewrite E in Ho.
    by rewrite lookup_empty in Ho. }
  rewrite Hsize. destruct (size st) as [|n]; [done|].
  simpl. rewrite Hold. simpl. by rewrite Hnew'.
Qed.

(** C10. A greenlet other than the hub's calls [switch]. Control is
    handed to the hub greenlet (the new one if the old one was dead) in a
    world where that greenlet is alive and, unless the caller is an
    ancestor of the hub greenlet (its parent, or further up: the parent
    cycle), is the parent of the caller, so that control returns to it if
    the caller exits; an ancestor keeps the parent it had. That is the
    state at the hand-over, not at the completion of the call: if the hub
    greenlet dies while the caller waits and [ensure_greenlet] replaces it,
    the caller's parent is still the dead greenlet, not the new hub
    greenlet, and it is through the dead one that control reaches the new
    hub greenlet when the caller exits. *)
Theorem switch_reparents_caller (greenlet_switch : gid → M pyobj) w :
  let cur := current w in
  let old := Hub.greenlet (hub w) in
  let st := greenlets w in
  cur ≠ old →
  is_Some (st !! cur) →
  (greenlet.dead (st !!! old) = true → greenlet.well_parented st old = true) →
  ∃ w1,
    switch greenlet_switch w = greenlet_switch (Hub.greenlet (hub w1)) w1
    ∧ current w1 = cur
    ∧ greenlet.dead (greenlets w1 !!! Hub.greenlet (hub w1)) = false
    ∧ (greenlet.dead (st !!! old) = false → Hub.greenlet (hub w1) = old)
    ∧ (greenlet.dead (st !!! old) = true → st !! Hub.greenlet (hub w1) = None)
    ∧ (greenlet.is_ancestor st cur old = false →
       greenlet.parent (greenlets w1 !!! cur) = Some (Hub.greenlet (hub w1))
       ∧ greenlet.exit_target (size (greenlets w1)) (greenlets w1)
           (greenlet.parent (greenlets w1 !!! cur))
         = Some (Hub.greenlet (hub w1)))
    ∧ (greenlet.is_ancestor st cur old = true →
       greenlet.parent (greenlets w1 !!! cur) = greenlet.parent (st !!! cur))
    ∧ (greenlet.parent (st !!! old) = Some cur →
       greenlet.is_ancestor st cur old = true)
    ∧ (∀ w2,
         Hub.greenlet (hub w2) = Hub.greenlet (hub w1) →
         greenlet.parent (greenlets w2 !!! cur) = Some (Hub.greenlet (hub w1)) →
         greenlet.dead (greenlets w2 !!! Hub.greenlet (hub w1)) = true →
         greenlet.well_parented (greenlets w2) (Hub.greenlet (hub w1)) = true →
         ∃ w3, ensure_greenlet w2 = (Return tt, w3)
           ∧ greenlet.dead (greenlets w3 !!! Hub.greenlet (hub w3)) = false
           ∧ greenlet.parent (greenlets w3 !!! cur) = Some (Hub.greenlet (hub w1))
           ∧ greenlet.parent (greenlets w3 !!! cur) ≠ Some (Hub.greenlet (hub w3))
           ∧ greenlet.exit_target (size (greenlets w3)) (greenlets w3)
               (greenlet.parent (greenlets w3 !!! cur))
             = Some (Hub.greenlet (hub w3))).
Proof.
  intros cur old st Hne Hcur Hwf.
  destruct (switch_run w Hne Hcur Hwf)
    as (w1 & _ & Hsw & Hc & _ & _ & _ & Hhc & Hlive & Halive & Hdead & Hset & Hkeep).
  exists w1.
  split; [apply Hsw|]. split; [done|]. split; [done|]. split; [done|].
  split; [done|]. split; [|split; [done|split]].
  - intros Hanc. specialize (Hset Hanc). fold cur in Hset. split; [done|].
    rewrite Hset.
    destruct (size (greenlets w1)) as [|n] eqn:Hsize.
    + apply map_size_empty_inv in Hsize.
      rewrite Hsize, lookup_total_alt, lookup_empty in Hset. done.
    + simpl. by rewrite Hlive.
  - intros Hp. unfold greenlet.is_ancestor. fold st old. rewrite Hp.
    destruct (size st) eqn:Hsize; [|simpl; by rewrite decide_True].
    apply map_size_empty_inv in Hsize. destruct Hcur as [c Hlook].
    fold st in Hlook. rewrite Hsize in Hlook. by rewrite lookup_empty in Hlook.
  - intros w2 Hhub Hpar Hd Hwf2. rewrite <- Hhub in Hpar, Hd, Hwf2.
    destruct (exit_after_resurrection w2 cur Hpar) as (w3 & Hens & Hnew & Hl3 & _ & Hp3 & Hex);
      [by rewrite Hhub|done|done|].
    exists w3. rewrite <- Hhub.
    split; [done|]. split; [done|]. split; [done|]. split; [|done].
    rewrite Hp3. intros [= E]. by apply Hnew.
Qed.

End hub_greenlet.

(** ** [trampoline] and [gyield] *)

Section trampoline_facts.

Import AbstractHub ConcreteHub trampoline.

Implicit Types (w : World) (gs : gid → M pyobj).

Lemma try_finally_Return {A} (body : M A) (fin : M unit) w r w1 w2 :
  body w = (r, w1) → fin w1 = (Return tt, w2) →
  try_finally body fin w = (r, w2).
Proof. unfold try_finally. by intros -> ->. Qed.

Lemma armed_cancel w t t' :
  armed (cancel t w).2 t' = if decide (t = t') then false else armed w t'.
Proof.
  unfold armed, cancel, modify; simpl. rewrite lookup_alter.
  case_decide as H; [|done]. subst. by destruct (timers w !! t').
Qed.

Lemma armed_schedule w seconds cb args t' :
  let t := fresh (dom (timers w)) in
  timers w !! t = None
  ∧ schedule_call_global seconds cb args w
    = (Return t, set_timers (<[t := mk_Timer seconds cb args false]> (timers w)) w)
  ∧ armed (schedule_call_global seconds cb args w).2 t'
    = if decide (t = t') then true else armed w t'.
Proof.
  intros t. split; [apply not_elem_of_dom, is_fresh|]. split; [done|].
  unfold armed, schedule_call_global; simpl. fold t.
  rewrite lookup_insert. by case_decide.
Qed.

Lemma trampoline_unfold gs fd evtype timeout timeout_exc w :
  trampoline gs fd evtype timeout timeout_exc w
  = try_finally
      (do listener <- add evtype fd (g_switch (current w)) (g_throw (current w));
       try_finally (switch gs) (remove listener))
      (cancel_timer timeout (fresh (dom (timers w))))
      (with_timer timeout timeout_exc w).
Proof.
  unfold trampoline, getcurrent. rewrite bind_gets.
  unfold assert_. rewrite bind_ret.
  by destruct timeout.
Qed.

Lemma cancel_timer_Return timeout t w :
  cancel_timer timeout t w
  = (Return tt, match timeout with Some _ => (cancel t w).2 | None => w end).
Proof. by destruct timeout. Qed.

Lemma add_taken w evtype fd cb tb :
  is_Some (registered w evtype fd) →
  add evtype fd cb tb w = (Raise (RuntimeError_Multiple evtype fd), w).
Proof.
  intros Hreg. unfold add, bind, getcurrent, gets.
  unfold _add_listener, bind, gets, raise. simpl.
  unfold registered in Hreg. by rewrite bool_decide_eq_true_2.
Qed.

Lemma add_free w evtype fd cb tb :
  registered w evtype fd = None →
  let listener := AbstractListener.mk evtype fd (current w) in
  add evtype fd cb tb w
  = (Return listener, (bucket_setitem evtype fd (Some listener) w).2).
Proof.
  intros Hreg listener. unfold add, bind, getcurrent, gets.
  unfold _add_listener, bind, gets, raise. simpl.
  unfold registered in Hreg. rewrite Hreg.
  by rewrite bool_decide_eq_false_2 by (by intros [? ?]).
Qed.

(** A call that finds (evtype, fd) taken. *)
Lemma trampoline_taken gs fd evtype timeout timeout_exc w :
  is_Some (registered w evtype fd) →
  trampoline gs fd evtype timeout timeout_exc w
  = (Raise (RuntimeError_Multiple evtype fd),
     match timeout with
     | Some _ => (cancel (fresh (dom (timers w))) (with_timer timeout timeout_exc w)).2
     | None => w
     end).
Proof.
  intros Hreg. rewrite trampoline_unfold.
  erewrite try_finally_Return; [| |apply cancel_timer_Return].
  2:{ apply bind_Raise, add_taken. by destruct timeout. }
  by destruct timeout.
Qed.

(** A call that finds (evtype, fd) free: the listener is entered, the hub
    is switched to, and on the way out the listener is removed and the
    timer cancelled; the outcome is that of the switch. *)
Lemma trampoline_free gs fd evtype timeout timeout_exc w :
  registered w evtype fd = None →
  let listener := AbstractListener.mk evtype fd (current w) in
  let w_a := (bucket_setitem evtype fd (Some listener)
                (with_timer timeout timeout_exc w)).2 in
  ∃ w_r,
    _remove_listener listener (switch gs w_a).2 = (Return tt, w_r)
    ∧ trampoline gs fd evtype timeout timeout_exc w
      = ((switch gs w_a).1,
         match timeout with
         | Some _ => (cancel (fresh (dom (timers w))) w_r).2
         | None => w_r
         end).
Proof.
  intros Hreg listener w_a.
  destruct (remove_listener_once (switch gs w_a).2 listener) as (w_r & Hrem & _).
  exists w_r. split; [done|].
  rewrite trampoline_unfold.
  erewrite try_finally_Return; [reflexivity| |apply cancel_timer_Return].
  erewrite bind_Return; last first.
  { apply add_free. by destruct timeout. }
  assert (current (with_timer timeout timeout_exc w) = current w) as ->
    by (by destruct timeout).
  fold listener w_a.
  apply try_finally_Return with (w1 := (switch gs w_a).2); [|exact Hrem].
  by destruct (switch gs w_a).
Qed.

(** C2. A call of [trampoline] whose listener was registered (the pair
    was free) waits in a world that differs from the one it started in by
    its listener and, with a timeout, its armed timer. However the wait
    ends (a value switched back, the timeout exception, any other
    exception thrown in, or a failure of [switch] itself), the call ends
    the same way, and in the world it leaves no listener is registered for
    (evtype, fd) and every timer the call scheduled is disarmed; the other
    listeners and the greenlets are as the wait left them. *)
Theorem trampoline_cleans_up gs fd evtype timeout timeout_exc w :
  registered w evtype fd = None →
  let out := trampoline gs fd evtype timeout timeout_exc w in
  ∃ w_a,
    registered w_a evtype fd = Some (Some (AbstractListener.mk evtype fd (current w)))
    ∧ (∀ e k, (e, k) ≠ (evtype, fd) → registered w_a e k = registered w e k)
    ∧ (∀ t, is_Some (timers w !! t) → timers w_a !! t = timers w !! t)
    ∧ greenlets w_a = greenlets w
    ∧ current w_a = current w
    ∧ callbacks w_a = callbacks w
    ∧ Hub.greenlet (hub w_a) = Hub.greenlet (hub w)
    ∧ (∀ s, timeout = Some s →
            ∃ t, timers w !! t = None ∧ armed w_a t = true)
    ∧ out.1 = (switch gs w_a).1
    ∧ registered out.2 evtype fd = None
    ∧ (∀ t, timers w !! t = None → armed w_a t = true → armed out.2 t = false)
    ∧ (∀ e k, (e, k) ≠ (evtype, fd) →
              registered out.2 e k = registered (switch gs w_a).2 e k)
    ∧ greenlets out.2 = greenlets (switch gs w_a).2.
Proof.
  intros Hreg out.
  destruct (trampoline_free gs fd evtype timeout timeout_exc w Hreg)
    as (w_r & Hrem & Hout).
  cbv zeta in Hrem, Hout.
  set (listener := AbstractListener.mk evtype fd (current w)) in *.
  set (w_a := (bucket_setitem evtype fd (Some listener)
                 (with_timer timeout timeout_exc w)).2) in *.
  destruct (remove_listener_once (switch gs w_a).2 listener)
    as (w_r' & Hrem' & Hgr & _ & _ & _ & _ & Hgone).
  rewrite Hrem in Hrem'. injection Hrem' as <-.
  assert (timers w_a = timers (with_timer timeout timeout_exc w)) as Htw by done.
  assert (timers w !! fresh (dom (timers w)) = None) as Hfresh
    by apply not_elem_of_dom, is_fresh.
  exists w_a. subst out. rewrite Hout. cbn [fst snd].
  split. { unfold w_a. rewrite registered_setitem. by rewrite decide_True. }
  split.
  { intros e k Hne. unfold w_a. rewrite registered_setitem.
    rewrite decide_False by (intros [? ?]; congruence). by destruct timeout. }
  split.
  { intros t [tm Ht]. rewrite Htw. destruct timeout; [|done]. simpl.
    rewrite lookup_insert_ne; [done|]. intros E. rewrite E in Hfresh. congruence. }
  do 4 (split; [by destruct timeout|]).
  split.
  { intros s ->. exists (fresh (dom (timers w))). split; [done|].
    unfold armed. rewrite Htw. simpl. by rewrite lookup_insert_eq. }
  split; [done|]. split.
  { assert (registered w_r evtype fd = None) as Hnone.
    { rewrite Hgone. simpl. by rewrite decide_True. }
    by destruct timeout. }
  split.
  { intros t Hnew Harmed. unfold armed in Harmed. rewrite Htw in Harmed.
    destruct timeout as [s|]; simpl in Harmed.
    - destruct (decide (fresh (dom (timers w)) = t)) as [<-|Hne].
      + rewrite armed_cancel. by rewrite decide_True.
      + rewrite lookup_insert_ne in Harmed by done. by rewrite Hnew in Harmed.
    - by rewrite Hnew in Harmed. }
  split.
  { intros e k Hne.
    assert (registered w_r e k = registered (switch gs w_a).2 e k) as <-.
    { rewrite Hgone. simpl. by rewrite decide_False by (intros [? ?]; congruence). }
    by destruct timeout. }
  rewrite <- Hgr. by destruct timeout.
Qed.

(** C3. When (evtype, fd) is already registered, [trampoline] ends with
    the RuntimeError of [_add_listener], whatever the hub would do. The
    hub object, and with it the registry, is the one before the call, so
    no listener was installed; no timer is armed that was not armed
    before, and the timer object the call made for its timeout is there,
    cancelled. *)
Theorem trampoline_duplicate_listener gs fd evtype timeout timeout_exc w :
  is_Some (registered w evtype fd) →
  let out := trampoline gs fd evtype timeout timeout_exc w in
  out.1 = Raise (RuntimeError_Multiple evtype fd)
  ∧ hub out.2 = hub w
  ∧ greenlets out.2 = greenlets w
  ∧ current out.2 = current w
  ∧ callbacks out.2 = callbacks w
  ∧ (∀ t, armed out.2 t = armed w t)
  ∧ (∀ s, timeout = Some s →
          ∃ t tm, timers w !! t = None ∧ timers out.2 !! t = Some tm
                  ∧ cancelled tm = true
                  ∧ ∀ t', t' ≠ t → timers out.2 !! t' = timers w !! t')
  ∧ (timeout = None → timers out.2 = timers w).
Proof.
  intros Hreg out. subst out. rewrite trampoline_taken by done. simpl.
  assert (timers w !! fresh (dom (timers w)) = None) as Hnew
    by apply not_elem_of_dom, is_fresh.
  destruct timeout as [s|]; simpl.
  - repeat split; try done.
    + intros t. unfold armed; simpl. rewrite lookup_alter.
      case_decide as E.
      * subst t. by rewrite lookup_insert_eq, Hnew.
      * by rewrite lookup_insert_ne.
    + intros s' _. eexists _, _. split; [exact Hnew|]. split.
      { rewrite lookup_alter, decide_True by done.
        by rewrite lookup_insert_eq. }
      split; [done|]. intros t' Hne.
      rewrite lookup_alter, decide_False by done.
      by rewrite lookup_insert_ne.
  - repeat split; done.
Qed.

(** C5, as the code has it. The default of [timeout_exc] is [Timeout],
    the class imported from [guv.timeout]: a call with a timeout and no
    [timeout_exc] is the call with [timeout_exc=Timeout], and while it
    waits the one timer it has added is armed with a callback that throws
    [Timeout] into the calling greenlet. *)
Theorem trampoline_default_timeout_exc gs fd evtype s w :
  registered w evtype fd = None →
  let out := trampoline gs fd evtype (Some s) None w in
  out = trampoline gs fd evtype (Some s) (Some Timeout) w
  ∧ ∃ t tm w_a,
      out.1 = (switch gs w_a).1
      ∧ timers w !! t = None
      ∧ timers w_a !! t = Some tm
      ∧ (∀ t', t' ≠ t → timers w_a !! t' = timers w !! t')
      ∧ cancelled tm = false
      ∧ seconds tm = s
      ∧ call (timer_cb tm) (timer_args tm) = ThrowInto (current w) (Some Timeout).
Proof.
  intros Hreg out. split; [done|].
  destruct (trampoline_free gs fd evtype (Some s) None w Hreg) as (w_r & _ & Hout).
  cbv zeta in Hout. subst out. rewrite Hout.
  eexists (fresh (dom (timers w))), _, _. split; [reflexivity|].
  split; [apply not_elem_of_dom, is_fresh|]. simpl.
  split; [by rewrite lookup_insert_eq|].
  split; [|done]. intros t' Hne. by rewrite lookup_insert_ne.
Qed.

(** X25. [gyield] called by a greenlet other than the hub's puts
    [current.switch], the callable that resumes the caller, at the tail of
    the hub's immediate-dispatch queue, behind every callable already
    waiting there, and then hands control to the live hub greenlet in
    that world; it returns when the caller is resumed, with the outcome
    of that switch. *)
Theorem gyield_schedules_and_switches gs w :
  let cur := current w in
  let old := Hub.greenlet (hub w) in
  let st := greenlets w in
  cur ≠ old →
  is_Some (st !! cur) →
  (greenlet.dead (st !!! old) = true → greenlet.well_parented st old = true) →
  ∃ w1,
    callbacks w1 = callbacks w ++ [g_switch cur]
    ∧ call (g_switch cur) [] = SwitchInto cur
    ∧ (∀ i cb, callbacks w !! i = Some cb → callbacks w1 !! i = Some cb)
    ∧ callbacks w1 !! length (callbacks w) = Some (g_switch cur)
    ∧ current w1 = cur
    ∧ Hub.greenlet (hub w1) ≠ cur
    ∧ greenlet.dead (greenlets w1 !!! Hub.greenlet (hub w1)) = false
    ∧ timers w1 = timers w
    ∧ Hub.listeners (hub w1) = Hub.listeners (hub w)
    ∧ gyield gs w
      = (match (gs (Hub.greenlet (hub w1)) w1).1 with
         | Return _ => Return tt
         | Raise e => Raise e
         end,
         (gs (Hub.greenlet (hub w1)) w1).2).
Proof.
  intros cur old st Hne Hcur Hwf.
  set (w_s := set_callbacks (callbacks w ++ [g_switch cur]) w).
  destruct (switch_run w_s) as (w1 & _ & Hsw & Hc & Hq & Ht & Hl & Hhc & Hlive & _);
    [done..|].
  exists w1. simpl in Hq, Hc, Ht, Hl, Hhc.
  split; [done|]. split; [done|]. split.
  { intros i cb Hi. rewrite Hq. by apply lookup_app_l_Some. }
  split. { rewrite Hq. by rewrite lookup_app_r, Nat.sub_diag. }
  repeat (split; [done|]).
  unfold gyield, getcurrent, schedule_call_now. rewrite bind_gets, bind_modify.
  fold cur w_s. unfold bind. rewrite Hsw.
  by destruct (gs (Hub.greenlet (hub w1)) w1) as [[v|e] w2].
Qed.

End trampoline_facts.

(** ** [Handle.close] *)

Section handle_close.

Import pyuv_cffi.

Implicit Types (s : state) (self : hid) (h : Handle).

Lemma close_when_called s self callback :
  close_called s self → close self callback s = s.
Proof. intros (h & Hh & Hc). unfold close. by rewrite Hh, Hc. Qed.

(** Nothing in the module ever clears [_close_called]. *)
Lemma step_keeps_close_called o s self :
  close_called s self → close_called (step o s) self.
Proof.
  intros (h & Hh & Hc). unfold close_called.
  destruct o as [handle|self' cb|self' cb raises|self' cb|poll self']; simpl.
  - exists h. split; [|done]. rewrite lookup_insert_ne; [done|].
    intros E. pose proof (is_fresh (dom (handles s))) as Hf.
    rewrite E in Hf. apply Hf, elem_of_dom. eauto.
  - unfold close. destruct (handles s !! self') as [h'|] eqn:Hh'; [|eauto].
    destruct (_close_called h') eqn:Hc'; [eauto|]. simpl.
    destruct (decide (self' = self)) as [->|Hne]; [congruence|].
    exists h. by rewrite lookup_insert_ne.
  - unfold close_cb_run.
    set (s1 := match cb with Some _ => _ | None => s end).
    assert (handles s1 = handles s) as Hs1 by (by destruct cb).
    destruct (match cb with Some _ => raises | None => false end);
      [rewrite Hs1; eauto|].
    destruct (list_remove self' (alive s1)); [|rewrite Hs1; eauto].
    destruct (handles s1 !! self') as [h'|] eqn:Hh'; [|rewrite Hs1; eauto].
    simpl. rewrite Hs1 in Hh' |- *.
    destruct (decide (self' = self)) as [->|Hne].
    + rewrite lookup_insert_eq. eexists. split; [done|]. simpl. congruence.
    + exists h. by rewrite lookup_insert_ne.
  - unfold start. destruct (handles s !! self') as [h'|] eqn:Hh'; [|eauto].
    simpl. destruct (decide (self' = self)) as [->|Hne].
    + rewrite lookup_insert_eq. eexists. split; [done|]. simpl. congruence.
    + exists h. by rewrite lookup_insert_ne.
  - unfold stop. destruct (handles s !! self') as [h'|] eqn:Hh'; [|eauto].
    simpl. destruct (decide (self' = self)) as [->|Hne].
    + rewrite lookup_insert_eq. eexists. split; [done|]. simpl. congruence.
    + exists h. by rewrite lookup_insert_ne.
Qed.

Lemma run_keeps_close_called ops : ∀ s self,
  close_called s self → close_called (run ops s) self.
Proof.
  induction ops as [|o ops IH]; intros s self Hc; [done|].
  simpl. apply IH. by apply step_keeps_close_called.
Qed.

(** C9. The first [close] of a handle records the close callback, makes
    the one call to [uv_close] with it and sets [_close_called]; nothing
    else moves. From then on, whatever else the module does in between
    (handles made, started, stopped or closed, close callbacks fired),
    [close] on that handle, with any callback, changes nothing: no further
    call into libuv, no callback installed, no attribute written. *)
Theorem close_idempotent s self h callback :
  handles s !! self = Some h →
  _close_called h = false →
  let s1 := close self callback s in
  handles s1 !! self
  = Some (mk_Handle (uv_handle h) (_ffi_cb h)
            (Some (close_cb_wrapper self callback)) true)
  ∧ (∀ self', self' ≠ self → handles s1 !! self' = handles s !! self')
  ∧ libuv_calls s1
    = libuv_calls s ++ [uv_close (uv_handle h) (close_cb_wrapper self callback)]
  ∧ alive s1 = alive s
  ∧ user_calls s1 = user_calls s
  ∧ (∀ callback', close self callback' s1 = s1)
  ∧ (∀ ops callback', close self callback' (run ops s1) = run ops s1).
Proof.
  intros Hh Hc s1.
  assert (s1 = mk_state
                 (<[self := mk_Handle (uv_handle h) (_ffi_cb h)
                              (Some (close_cb_wrapper self callback)) true]> (handles s))
                 (alive s)
                 (libuv_calls s ++ [uv_close (uv_handle h) (close_cb_wrapper self callback)])
                 (user_calls s)) as Hs1.
  { unfold s1, close. by rewrite Hh, Hc. }
  assert (close_called s1 self) as Hcalled.
  { rewrite Hs1. eexists. simpl. by rewrite lookup_insert_eq. }
  split; [rewrite Hs1; simpl; by rewrite lookup_insert_eq|].
  split; [intros self' Hne; rewrite Hs1; simpl; by rewrite lookup_insert_ne|].
  do 3 (split; [by rewrite Hs1|]). split.
  - intros callback'. by apply close_when_called.
  - intros ops callback'. by apply close_when_called, run_keeps_close_called.
Qed.

End handle_close.

(** ** The statements at work on the example worlds *)

Section examples.

Import Examples.

(** The model at work: a wait that ends at once, a wait that ends with
    the timer, a switch that reparents and two that do not. *)

Example trampoline_ready :
  (trampoline.trampoline resume_at_once 7%Z READ None None w_live).1 = Return PyNone
  ∧ Hub.listeners (hub (trampoline.trampoline resume_at_once 7%Z READ None None w_live).2)
    = empty_registry.
Proof. by vm_compute. Qed.

Example trampoline_timeout_given :
  (trampoline.trampoline timer_fires 7%Z READ (Some (1 # 2)%Q)
     (Some (OtherError "socket.timeout")) w_live).1
  = Raise (OtherError "socket.timeout").
Proof. by vm_compute. Qed.

Example switch_enter_reparents :
  greenlet.parent (greenlets (AbstractHub.switch_enter w_live).2 !!! task_g) = Some hub_g.
Proof. by vm_compute. Qed.

Example switch_enter_resurrects :
  Hub.greenlet (hub (AbstractHub.switch_enter w_dead).2) = 4%positive
  ∧ greenlets (AbstractHub.switch_enter w_dead).2 !! 4%positive
    = Some (greenlet.mk (Some root_g) false)
  ∧ greenlets (AbstractHub.switch_enter w_dead).2 !! hub_g
    = Some (greenlet.mk (Some 4%positive) true)
  ∧ greenlets (AbstractHub.switch_enter w_dead).2 !! task_g
    = Some (greenlet.mk (Some 4%positive) false).
Proof. by vm_compute. Qed.

Example switch_enter_cycle :
  greenlet.is_ancestor (greenlets w_cycle) task_g hub_g = true
  ∧ AbstractHub.switch_enter w_cycle = (Return tt, w_cycle).
Proof. by vm_compute. Qed.

Example switch_in_hub_refused :
  (AbstractHub.switch timer_fires w_in_hub).1
  = Raise (AssertionError "Cannot switch to the hub from the hub").
Proof. by vm_compute. Qed.

Example gyield_queue :
  callbacks (trampoline.gyield resume_at_once w_live).2 = [g_switch task_g].
Proof. by vm_compute. Qed.

Lemma add_listener_duplicate_raises_witness :
  registered w_listening READ 7%Z = Some (Some listener7)
  ∧ AbstractHub._add_listener (AbstractListener.mk READ 7%Z root_g) w_listening
    = (Raise (RuntimeError_Multiple READ 7%Z), w_listening).
Proof.
  assert (registered w_listening READ 7%Z = Some (Some listener7)) as H
    by (vm_compute; reflexivity).
  split; [exact H|].
  exact (proj1 (add_listener_duplicate_raises w_listening listener7
                  (AbstractListener.mk READ 7%Z root_g) H)).
Defined.

Lemma trampoline_cleans_up_witness :
  registered w_live READ 7%Z = None
  ∧ registered (trampoline.trampoline timer_fires 7%Z READ (Some (1 # 2)%Q) None w_live).2
      READ 7%Z = None.
Proof.
  assert (registered w_live READ 7%Z = None) as H by (vm_compute; reflexivity).
  split; [exact H|].
  destruct (trampoline_cleans_up timer_fires 7%Z READ (Some (1 # 2)%Q) None w_live H)
    as (w_a & _ & _ & _ & _ & _ & _ & _ & _ & _ & Hgone & _).
  exact Hgone.
Defined.

Lemma trampoline_duplicate_listener_witness :
  is_Some (registered w_listening READ 7%Z)
  ∧ (trampoline.trampoline resume_at_once 7%Z READ (Some (1 # 2)%Q) None w_listening).1
    = Raise (RuntimeError_Multiple READ 7%Z).
Proof.
  assert (is_Some (registered w_listening READ 7%Z)) as H
    by (exists (Some listener7); vm_compute; reflexivity).
  split; [exact H|].
  exact (proj1 (trampoline_duplicate_listener resume_at_once 7%Z READ
                  (Some (1 # 2)%Q) None w_listening H)).
Defined.

Lemma ensure_greenlet_resurrects_witness :
  greenlet.dead (greenlets w_dead !!! Hub.greenlet (hub w_dead)) = true
  ∧ greenlet.well_parented (greenlets w_dead) (Hub.greenlet (hub w_dead)) = true
  ∧ ∃ new w',
      AbstractHub.ensure_greenlet w_dead = (Return tt, w')
      ∧ greenlets w' !! new = Some (greenlet.mk (Some root_g) false)
      ∧ greenlets w' !! hub_g = Some (greenlet.mk (Some new) true)
      ∧ Hub.greenlet (hub w') = new.
Proof.
  assert (greenlet.dead (greenlets w_dead !!! Hub.greenlet (hub w_dead)) = true) as Hd
    by (vm_compute; reflexivity).
  assert (greenlet.well_parented (greenlets w_dead) (Hub.greenlet (hub w_dead)) = true)
    as Hwf by (vm_compute; reflexivity).
  split; [exact Hd|]. split; [exact Hwf|].
  destruct (proj1 (ensure_greenlet_resurrects w_dead) Hd Hwf)
    as (new & w' & Hens & _ & Hnew & Hold & Hhub & _).
  exists new, w'. split; [exact Hens|]. split; [exact Hnew|].
  split; [exact Hold|exact Hhub].
Defined.

Lemma switch_assertion_witness :
  current w_in_hub = Hub.greenlet (hub w_in_hub)
  ∧ AbstractHub.switch resume_at_once w_in_hub
    = (Raise (AssertionError "Cannot switch to the hub from the hub"), w_in_hub).
Proof.
  assert (current w_in_hub = Hub.greenlet (hub w_in_hub)) as H by reflexivity.
  split; [exact H|].
  exact (proj2 (switch_assertion resume_at_once w_in_hub) H).
Defined.

Lemma switch_reparents_caller_witness :
  current w_dead ≠ Hub.greenlet (hub w_dead)
  ∧ is_Some (greenlets w_dead !! current w_dead)
  ∧ greenlet.well_parented (greenlets w_dead) (Hub.greenlet (hub w_dead)) = true
  ∧ ∃ w1,
      AbstractHub.switch resume_at_once w_dead
      = resume_at_once (Hub.greenlet (hub w1)) w1
      ∧ greenlet.parent (greenlets w1 !!! task_g) = Some (Hub.greenlet (hub w1)).
Proof.
  assert (current w_dead ≠ Hub.greenlet (hub w_dead)) as Hne by (vm_compute; discriminate).
  assert (is_Some (greenlets w_dead !! current w_dead)) as Hcur
    by (eexists; vm_compute; reflexivity).
  assert (greenlet.well_parented (greenlets w_dead) (Hub.greenlet (hub w_dead)) = true)
    as Hwf by (vm_compute; reflexivity).
  split; [exact Hne|]. split; [exact Hcur|]. split; [exact Hwf|].
  destruct (switch_reparents_caller resume_at_once w_dead Hne Hcur (λ _, Hwf))
    as (w1 & Hsw & _ & _ & _ & _ & Hset & _).
  exists w1. split; [exact Hsw|].
  apply Hset. vm_compute; reflexivity.
Defined.

(** C10, as the specification words it, fails at the completion of the
    call. The task calls [switch] under a live hub greenlet and becomes
    its child; while it waits the hub greenlet dies and the root greenlet's
    own [switch] replaces it. When the task's call completes, the hub's
    greenlet is the new one, which is alive, is neither a child nor a
    descendant of the task, and is not the task's parent: the task's
    parent is the dead greenlet. Control still reaches the new hub greenlet
    when the task exits. *)
Lemma switch_parent_is_dead_hub_greenlet :
  let out := AbstractHub.switch (hub_dies_and_is_replaced task_g) w_live in
  current w_live = task_g
  ∧ current w_live ≠ Hub.greenlet (hub w_live)
  ∧ out.1 = Return PyNone
  ∧ current out.2 = task_g
  ∧ greenlet.dead (greenlets out.2 !!! Hub.greenlet (hub out.2)) = false
  ∧ greenlet.parent (greenlets out.2 !!! Hub.greenlet (hub out.2)) ≠ Some task_g
  ∧ greenlet.is_ancestor (greenlets out.2) task_g (Hub.greenlet (hub out.2)) = false
  ∧ greenlet.parent (greenlets out.2 !!! task_g) = Some hub_g
  ∧ greenlet.dead (greenlets out.2 !!! hub_g) = true
  ∧ greenlet.parent (greenlets out.2 !!! task_g) ≠ Some (Hub.greenlet (hub out.2))
  ∧ greenlet.exit_target (size (greenlets out.2)) (greenlets out.2)
      (greenlet.parent (greenlets out.2 !!! task_g))
    = Some (Hub.greenlet (hub out.2)).
Proof.
  intros out.
  assert (Hub.greenlet (hub out.2) = 4%positive) as Hhub by (vm_compute; reflexivity).
  assert (greenlet.parent (greenlets out.2 !!! task_g) = Some hub_g) as Hpar
    by (vm_compute; reflexivity).
  split; [reflexivity|]. split; [vm_compute; discriminate|].
  split; [vm_compute; reflexivity|]. split; [vm_compute; reflexivity|].
  split; [vm_compute; reflexivity|]. split; [vm_compute; discriminate|].
  split; [vm_compute; reflexivity|]. split; [exact Hpar|].
  split; [vm_compute; reflexivity|].
  split; [rewrite Hpar, Hhub; discriminate|].
  vm_compute; reflexivity.
Qed.

Lemma gyield_schedules_and_switches_witness :
  current w_live ≠ Hub.greenlet (hub w_live)
  ∧ is_Some (greenlets w_live !! current w_live)
  ∧ ∃ w1,
      callbacks w1 = callbacks w_live ++ [g_switch task_g]
      ∧ trampoline.gyield resume_at_once w_live = (Return tt, w1).
Proof.
  assert (current w_live ≠ Hub.greenlet (hub w_live)) as Hne by (vm_compute; discriminate).
  assert (is_Some (greenlets w_live !! current w_live)) as Hcur
    by (eexists; vm_compute; reflexivity).
  assert (greenlet.dead (greenlets w_live !!! Hub.greenlet (hub w_live)) = true →
          greenlet.well_parented (greenlets w_live) (Hub.greenlet (hub w_live)) = true)
    as Hwf by (vm_compute; discriminate).
  split; [exact Hne|]. split; [exact Hcur|].
  destruct (gyield_schedules_and_switches resume_at_once w_live Hne Hcur Hwf)
    as (w1 & Hq & _ & _ & _ & _ & _ & _ & _ & _ & Hrun).
  exists w1. split; [exact Hq|exact Hrun].
Defined.

Lemma trampoline_default_timeout_exc_witness :
  registered w_live READ 7%Z = None
  ∧ (trampoline.trampoline timer_fires 7%Z READ (Some (1 # 2)%Q) None w_live)
    = (trampoline.trampoline timer_fires 7%Z READ (Some (1 # 2)%Q) (Some Timeout) w_live).
Proof.
  assert (registered w_live READ 7%Z = None) as H by (vm_compute; reflexivity).
  split; [exact H|].
  exact (proj1 (trampoline_default_timeout_exc timer_fires 7%Z READ (1 # 2)%Q w_live H)).
Defined.

(** C5, as the specification words it, fails: in a call with a timeout
    and no [timeout_exc], the exception that the expiring timer throws
    into the waiting greenlet is [Timeout], not [TimeoutError]. *)
Lemma trampoline_default_is_not_TimeoutError :
  trampoline.timeout_exc_default ≠ TimeoutError
  ∧ (trampoline.trampoline timer_fires 7%Z READ (Some (1 # 2)%Q) None w_live).1
    = Raise Timeout
  ∧ (trampoline.trampoline timer_fires 7%Z READ (Some (1 # 2)%Q) None w_live).1
    ≠ Raise TimeoutError.
Proof.
  split; [discriminate|].
  assert ((trampoline.trampoline timer_fires 7%Z READ (Some (1 # 2)%Q) None w_live).1
          = Raise Timeout) as H by (vm_compute; reflexivity).
  split; [exact H|]. rewrite H. discriminate.
Qed.

End examples.

Section handle_examples.

Import pyuv_cffi.

Lemma close_idempotent_witness :
  handles Examples.s_one_handle !! 1%positive = Some (mk_Handle 42 None None false)
  ∧ close 1%positive None (close 1%positive (Some "on_close") Examples.s_one_handle)
    = close 1%positive (Some "on_close") Examples.s_one_handle.
Proof.
  assert (handles Examples.s_one_handle !! 1%positive
          = Some (mk_Handle 42 None None false)) as H
    by (vm_compute; reflexivity).
  split; [exact H|].
  destruct (close_idempotent Examples.s_one_handle 1%positive
              (mk_Handle 42 None None false) (Some "on_close") H eq_refl)
    as (_ & _ & _ & _ & _ & Hagain & _).
  exact (Hagain None).
Defined.

End handle_examples.

(** * Further properties *)

(** ** The registry under [_add_listener] and [_remove_listener] *)

Section registry_more.

Import AbstractHub AbstractHubInit.

Implicit Types (w : World) (l : AbstractListener.t).

Lemma with_bucket_id w e : with_bucket e (bucket (Hub.listeners (hub w)) e) w = w.
Proof. destruct w as [[[rb wb] g s d] st c ts q]. by destruct e. Qed.

Lemma remove_listener_world w l :
  let e := AbstractListener.evtype l in
  let k := AbstractListener.fd l in
  _remove_listener l w
  = (Return tt, with_bucket e (delete k (bucket (Hub.listeners (hub w)) e)) w).
Proof.
  intros e k. unfold _remove_listener. fold e k.
  unfold bucket_setitem. rewrite bind_modify.
  unfold bucket_delitem. cbn [hub set_hub Hub.listeners Hub.set_listeners].
  rewrite bucket_set_bucket_eq, lookup_insert_eq, delete_insert_eq.
  unfold with_bucket. cbn [hub set_hub Hub.listeners Hub.set_listeners].
  destruct w as [[[rb wb] g s d] st c ts q]. by destruct e.
Qed.

Lemma add_listener_world w l :
  let e := AbstractListener.evtype l in
  let k := AbstractListener.fd l in
  registered w e k = None →
  _add_listener l w
  = (Return tt, with_bucket e (<[k := Some l]> (bucket (Hub.listeners (hub w)) e)) w).
Proof.
  intros e k Hfree. unfold _add_listener. fold e k. rewrite bind_gets.
  unfold registered in Hfree. rewrite Hfree.
  by rewrite bool_decide_eq_false_2 by (by intros [? ?]).
Qed.

Lemma registered_with_bucket w e b e' k' :
  registered (with_bucket e b w) e' k'
  = if decide (e = e') then b !! k' else registered w e' k'.
Proof.
  unfold registered, with_bucket. cbn [hub set_hub Hub.listeners Hub.set_listeners].
  case_decide as H; [subst; by rewrite bucket_set_bucket_eq|].
  by rewrite bucket_set_bucket_ne.
Qed.

Lemma add_listener_free w l :
  let e := AbstractListener.evtype l in
  let k := AbstractListener.fd l in
  registered w e k = None →
  ∃ w', _add_listener l w = (Return tt, w')
    ∧ registered w' e k = Some (Some l)
    ∧ (∀ e' k', (e', k') ≠ (e, k) → registered w' e' k' = registered w e' k')
    ∧ greenlets w' = greenlets w ∧ timers w' = timers w
    ∧ callbacks w' = callbacks w ∧ current w' = current w
    ∧ Hub.greenlet (hub w') = Hub.greenlet (hub w).
Proof.
  intros e k Hfree. eexists. split; [by apply add_listener_world|].
  fold e k. split.
  { rewrite registered_with_bucket, decide_True by done. by rewrite lookup_insert_eq. }
  split; [|done].
  intros e' k' Hne. rewrite registered_with_bucket.
  case_decide as He; [|done]. subst e'.
  rewrite lookup_insert_ne; [done|]. intros ->. by apply Hne.
Qed.

(** X1. [_add_listener] on a free pair returns, binds the pair to the
    listener and leaves every other entry and the rest of the world as
    they were. *)
Theorem add_listener_registers w l :
  let e := AbstractListener.evtype l in
  let k := AbstractListener.fd l in
  registered w e k = None →
  ∃ w', _add_listener l w = (Return tt, w')
    ∧ registered w' e k = Some (Some l)
    ∧ (∀ e' k', (e', k') ≠ (e, k) → registered w' e' k' = registered w e' k')
    ∧ greenlets w' = greenlets w ∧ timers w' = timers w
    ∧ callbacks w' = callbacks w ∧ current w' = current w
    ∧ Hub.greenlet (hub w') = Hub.greenlet (hub w).
Proof.
  intros e k Hfree.
  exists (with_bucket e (<[k := Some l]> (bucket (Hub.listeners (hub w)) e)) w).
  split; [by apply add_listener_world|].
  split.
  { rewrite registered_with_bucket, decide_True by done. apply lookup_insert_eq. }
  split; [|done].
  intros e' k' Hne. rewrite registered_with_bucket.
  destruct (decide (e = e')) as [<-|He]; [|done].
  apply lookup_insert_ne. intros <-. by apply Hne.
Qed.

(** X2. Adding a listener on a free pair and removing it again gives back
    the world the two calls started in, registry and all. *)
Theorem add_then_remove_restores w l :
  registered w (AbstractListener.evtype l) (AbstractListener.fd l) = None →
  (do_ _add_listener l; _remove_listener l) w = (Return tt, w).
Proof.
  intros Hfree.
  rewrite (bind_Return _ _ _ _ _ (add_listener_world w l Hfree)).
  rewrite remove_listener_world.
  unfold with_bucket at 1 2. cbn [hub set_hub Hub.listeners Hub.set_listeners].
  rewrite bucket_set_bucket_eq, delete_insert_id by done.
  rewrite <- (with_bucket_id w (AbstractListener.evtype l)) at 3.
  unfold with_bucket. destruct w as [[[rb wb] g s d] st c ts q].
  by destruct (AbstractListener.evtype l).
Qed.

(** X3. Removing a listener whose pair is not registered raises nothing
    (no KeyError from the [del]) and changes nothing. *)
Theorem remove_unregistered_is_noop w l :
  registered w (AbstractListener.evtype l) (AbstractListener.fd l) = None →
  _remove_listener l w = (Return tt, w).
Proof.
  intros Hfree. rewrite remove_listener_world.
  rewrite delete_id by done. by rewrite with_bucket_id.
Qed.

(** X4. Removal goes by the pair, not by the object: removing [l] while
    another listener holds the pair of [l] unregisters that other
    listener, without any error. *)
Theorem remove_evicts_other_listener w l other :
  other ≠ l →
  registered w (AbstractListener.evtype l) (AbstractListener.fd l) = Some (Some other) →
  ∃ w', _remove_listener l w = (Return tt, w')
    ∧ registered w' (AbstractListener.evtype l) (AbstractListener.fd l) = None
    ∧ ∀ e k, registered w' e k = Some (Some other) →
             registered w e k = Some (Some other)
             ∧ (e, k) ≠ (AbstractListener.evtype l, AbstractListener.fd l).
Proof.
  intros _ Hreg. eexists. split; [apply remove_listener_world|].
  split.
  { rewrite registered_with_bucket, decide_True by done. apply lookup_delete_eq. }
  intros e k. rewrite registered_with_bucket.
  case_decide as He; [|intros H; split; [done|congruence]].
  subst e. destruct (decide (AbstractListener.fd l = k)) as [<-|Hk].
  - by rewrite lookup_delete_eq.
  - rewrite lookup_delete_ne by done. intros H. split; [done|congruence].
Qed.

(** X5. After a removal the pair can be taken again: in any world,
    removing [l] and then adding a listener for the same pair returns and
    leaves that listener registered. *)
Theorem remove_then_add_registers w l l' :
  AbstractListener.evtype l' = AbstractListener.evtype l →
  AbstractListener.fd l' = AbstractListener.fd l →
  ∃ w', (do_ _remove_listener l; _add_listener l') w = (Return tt, w')
    ∧ registered w' (AbstractListener.evtype l) (AbstractListener.fd l) = Some (Some l')
    ∧ ∀ e k, (e, k) ≠ (AbstractListener.evtype l, AbstractListener.fd l) →
             registered w' e k = registered w e k.
Proof.
  intros He Hk.
  rewrite (bind_Return _ _ _ _ _ (remove_listener_world w l)).
  set (w1 := with_bucket _ _ w).
  assert (∀ e k, registered w1 e k
                 = if decide ((e, k) = (AbstractListener.evtype l, AbstractListener.fd l))
                   then None else registered w e k) as Hw1.
  { intros e k. unfold w1. rewrite registered_with_bucket.
    case_decide as E1; case_decide as E2; try done.
    - injection E2 as -> ->. apply lookup_delete_eq.
    - subst e. rewrite lookup_delete_ne; [done|]. intros <-. by apply E2.
    - injection E2 as -> ->. by destruct E1. }
  destruct (add_listener_free w1 l') as (w' & Hadd & Hnew & Hother & _).
  { rewrite He, Hk, Hw1. by rewrite decide_True. }
  rewrite He, Hk in Hnew, Hother.
  exists w'. split; [done|]. split; [done|].
  intros e k Hne. rewrite Hother, Hw1 by done. by rewrite decide_False.
Qed.

Lemma add_listener_taken w l :
  is_Some (registered w (AbstractListener.evtype l) (AbstractListener.fd l)) →
  _add_listener l w
  = (Raise (RuntimeError_Multiple (AbstractListener.evtype l) (AbstractListener.fd l)), w).
Proof.
  intros Hreg. unfold _add_listener. rewrite bind_gets.
  unfold registered in Hreg. by rewrite bool_decide_eq_true_2.
Qed.

Lemma registry_step_consistent o w :
  registry_consistent w → registry_consistent (registry_step o w).
Proof.
  intros Hw. destruct o as [l|l]; simpl.
  - destruct (registered w (AbstractListener.evtype l) (AbstractListener.fd l))
      as [v|] eqn:Hreg.
    + by rewrite add_listener_taken by eauto.
    + rewrite add_listener_world by done. simpl.
      intros e k v. rewrite registered_with_bucket.
      case_decide as He; [|apply Hw]. subst e.
      destruct (decide (AbstractListener.fd l = k)) as [<-|Hk].
      * rewrite lookup_insert_eq. intros [= <-]. eauto.
      * rewrite lookup_insert_ne by done. apply Hw.
  - rewrite remove_listener_world. simpl.
    intros e k v. rewrite registered_with_bucket.
    case_decide as He; [|apply Hw]. subst e.
    destruct (decide (AbstractListener.fd l = k)) as [<-|Hk].
    * by rewrite lookup_delete_eq.
    * rewrite lookup_delete_ne by done. apply Hw.
Qed.

Lemma registry_run_consistent ops : ∀ w,
  registry_consistent w → registry_consistent (registry_run ops w).
Proof.
  induction ops as [|o ops IH]; intros w Hw; [done|].
  simpl. apply IH. by apply registry_step_consistent.
Qed.

(** X6. From a hub as [__init__] makes it, whatever calls of
    [_add_listener] and [_remove_listener] follow, failed ones included,
    every key of the registry holds a listener whose own evtype and fd are
    that key; the [None] that [_remove_listener] writes never stays. *)
Theorem registry_stays_consistent ops w :
  registry_consistent (registry_run ops (__init__ w).2).
Proof.
  apply registry_run_consistent.
  assert (Hub.listeners (hub (__init__ w).2) = mk_registry ∅ ∅) as Hl by reflexivity.
  intros e k v. unfold registered. rewrite Hl.
  destruct e; simpl; by rewrite lookup_empty.
Qed.

End registry_more.

(** ** More on [ensure_greenlet] and [switch] *)

Section hub_greenlet_more.

Import AbstractHub AbstractHubInit.

Implicit Types (w : World) (st : gmap gid greenlet.t).


(** What [ensure_greenlet] does when the hub greenlet is dead, in any
    store. *)
Lemma ensure_greenlet_dead_cases w :
  let old := Hub.greenlet (hub w) in
  let st := greenlets w in
  let new := fresh (dom st) in
  let p := match greenlet.parent (st !!! old) with
           | Some p => p
           | None => current w
           end in
  let st1 := <[new := greenlet.mk (Some p) false]> st in
  greenlet.dead (st !!! old) = true →
  ensure_greenlet w
  = if greenlet.in_chain (S (size st1)) st1 old (Some new)
    then (Raise (ValueError "cyclic parent chain"), set_greenlets st1 w)
    else (Return tt,
          set_hub (Hub.set_greenlet new (hub w))
            (set_greenlets (<[old := greenlet.with_parent new (st1 !!! old)]> st1) w)).
Proof.
  intros old st new p st1 Hd.
  unfold ensure_greenlet, hub_greenlet, get_dead, get_parent.
  rewrite !bind_gets. fold old st. rewrite Hd, bind_gets. fold old st.
  change (bind (greenlet_greenlet (greenlet.parent (st !!! old))) ?k w)
    with (k new (set_greenlets st1 w)).
  cbv beta.
  set (w1 := set_greenlets st1 w).
  destruct (greenlet.in_chain (S (size st1)) st1 old (Some new)) eqn:Hchain.
  - by rewrite (bind_Raise _ _ _ _ _ (set_parent_Raise old new w1 Hchain)).
  - by rewrite (bind_Return _ _ _ _ _ (set_parent_Return old new w1 Hchain)).
Qed.


(** Walking up to [old] in the store after the resurrection. *)
Lemma in_chain_after_resurrection st old new onew n : ∀ p,
  st !! new = None →
  new ≠ old →
  let st' := <[old := greenlet.mk (Some new) true]> (<[new := onew]> st) in
  greenlet.in_chain n st old p = true →
  greenlet.in_chain (S n) st' new p = true.
Proof.
  induction n as [|n IH]; intros p Hnew Hne st' Hin; [done|].
  destruct p as [q|]; [|done]. simpl in Hin.
  change (greenlet.in_chain (S (S n)) st' new (Some q))
    with (if decide (q = new) then true
          else greenlet.in_chain (S n) st' new (greenlet.parent (st' !!! q))).
  destruct (decide (q = new)) as [|Hqn]; [done|].
  destruct (decide (q = old)) as [->|Hqo].
  - unfold st'. rewrite lookup_total_insert_eq. simpl. by rewrite decide_True.
  - assert (st' !!! q = st !!! q) as ->.
    { unfold st'. by rewrite !lookup_total_insert_ne. }
    by apply IH.
Qed.

(** X8. When a dead hub greenlet is replaced, every greenlet that had the
    dead one among its ancestors is itself untouched and has the new, live
    hub greenlet among its ancestors: it still has a live greenlet to
    return to. *)
Theorem resurrection_keeps_descendants w c :
  let old := Hub.greenlet (hub w) in
  let st := greenlets w in
  greenlet.dead (st !!! old) = true →
  greenlet.well_parented st old = true →
  greenlet.is_ancestor st old c = true →
  ∃ w', ensure_greenlet w = (Return tt, w')
    ∧ greenlets w' !!! c = st !!! c
    ∧ greenlet.parent (greenlets w' !!! old) = Some (Hub.greenlet (hub w'))
    ∧ greenlet.dead (greenlets w' !!! Hub.greenlet (hub w')) = false
    ∧ greenlet.is_ancestor (greenlets w') (Hub.greenlet (hub w')) c = true.
Proof.
  intros old st Hd Hwf Hanc. unfold greenlet.well_parented in Hwf.
  destruct (st !! old) as [o|] eqn:Ho; [|done].
  destruct (greenlet.parent o) as [p|] eqn:Hp; [|done].
  rewrite (lookup_total_correct st old o Ho) in Hd.
  pose proof (ensure_greenlet_dead w o p Ho Hd Hp Hwf) as Hens.
  cbv zeta in Hens. fold st old in Hens.
  set (new := fresh (dom st)) in *.
  assert (st !! new = None) as Hnew by apply not_elem_of_dom, is_fresh.
  assert (new ≠ old) as Hno by (intros E; rewrite E in Hnew; congruence).
  assert (c ≠ old) as Hco.
  { intros ->. unfold greenlet.is_ancestor in Hanc.
    rewrite (lookup_total_correct st old o Ho), Hp in Hanc.
    by rewrite (rooted_not_in_chain _ _ _ _ _ Hwf) in Hanc. }
  assert (c ≠ new) as Hcn.
  { intros ->. unfold greenlet.is_ancestor in Hanc.
    rewrite lookup_total_alt, Hnew in Hanc. simpl in Hanc.
    by destruct (size st). }
  eexists. split; [exact Hens|]. simpl.
  split; [by rewrite !lookup_total_insert_ne|].
  split; [by rewrite lookup_total_insert_eq|].
  split.
  { rewrite lookup_total_insert_ne by done. by rewrite lookup_total_insert_eq. }
  unfold greenlet.is_ancestor.
  rewrite !(lookup_total_insert_ne _ _ c) by done.
  rewrite map_size_insert_Some by (rewrite lookup_insert_ne by done; eauto).
  rewrite map_size_insert_None by done.
  by apply in_chain_after_resurrection.
Qed.


Lemma untouched_refl w : untouched w w.
Proof. repeat split. intros g o Ho. eauto. Qed.

Lemma untouched_trans w1 w2 w3 : untouched w1 w2 → untouched w2 w3 → untouched w1 w3.
Proof.
  intros (Hl & Hs & Hd & Ht & Hq & Hc & Hg) (Hl' & Hs' & Hd' & Ht' & Hq' & Hc' & Hg').
  repeat split; try congruence.
  intros g o Ho. destruct (Hg g o Ho) as (o1 & Ho1 & Hd1).
  destruct (Hg' g o1 Ho1) as (o2 & Ho2 & Hd2). exists o2. split; [done|congruence].
Qed.

Lemma set_parent_untouched self nparent w : untouched w (set_parent self nparent w).2.
Proof.
  unfold set_parent. destruct (greenlet.in_chain _ _ _ _); [apply untouched_refl|].
  repeat split. simpl. intros g o Ho.
  destruct (decide (g = self)) as [->|Hne].
  - rewrite lookup_insert_eq, (lookup_total_correct _ _ _ Ho). eauto.
  - rewrite lookup_insert_ne by done. eauto.
Qed.

Lemma greenlet_greenlet_untouched parent w : untouched w (greenlet_greenlet parent w).2.
Proof.
  repeat split. simpl. intros g o Ho. exists o. split; [|done].
  rewrite lookup_insert_ne; [done|]. intros E.
  pose proof (is_fresh (dom (greenlets w))) as Hf. rewrite E in Hf.
  apply Hf, elem_of_dom. eauto.
Qed.

Lemma ensure_greenlet_untouched w : untouched w (ensure_greenlet w).2.
Proof.
  destruct (greenlet.dead (greenlets w !!! Hub.greenlet (hub w))) eqn:Hd.
  - rewrite (ensure_greenlet_dead_cases w Hd).
    set (new := fresh (dom (greenlets w))).
    set (p := match greenlet.parent _ with Some p => p | None => current w end).
    pose proof (greenlet_greenlet_untouched (Some p) w) as H1. simpl in H1. fold new in H1.
    set (w1 := set_greenlets (<[new := greenlet.mk (Some p) false]> (greenlets w)) w) in *.
    pose proof (set_parent_untouched (Hub.greenlet (hub w)) new w1) as H2.
    match goal with |- context [if ?b then _ else _] => destruct b eqn:Hchain end;
      [exact H1|].
    rewrite (set_parent_Return (Hub.greenlet (hub w)) new w1 Hchain) in H2.
    eapply untouched_trans; [exact H1|].
    destruct H2 as (? & ? & ? & ? & ? & ? & Hk). by repeat split.
  - rewrite ensure_greenlet_alive by done. apply untouched_refl.
Qed.

Lemma reparent_untouched cur w : untouched w (reparent cur w).2.
Proof.
  unfold reparent, except_ValueError_pass, hub_greenlet, get_parent.
  rewrite !bind_gets. case_bool_decide; [|apply untouched_refl].
  pose proof (set_parent_untouched cur (Hub.greenlet (hub w)) w) as Hset.
  destruct (set_parent cur (Hub.greenlet (hub w)) w) as [[[]|e] w'] eqn:E; try done.
  by destruct e.
Qed.

Lemma switch_enter_keeps w : untouched w (switch_enter w).2.
Proof.
  unfold switch_enter, getcurrent, hub_greenlet. rewrite !bind_gets.
  case_bool_decide as Hne; [|apply untouched_refl].
  unfold assert_. rewrite bind_ret.
  pose proof (ensure_greenlet_untouched w) as H1.
  unfold bind. destruct (ensure_greenlet w) as [[[]|e] w0]; [|exact H1].
  eapply untouched_trans; [exact H1|]. apply reparent_untouched.
Qed.

(** X9. Whatever the world and however it ends, the part of [switch]
    that runs before the hand-over touches only parent links and the hub's
    [greenlet] attribute: the registry, the timers, the callback queue,
    the hub's flags and the running greenlet are as before, no greenlet
    object disappears and none changes its [dead] flag. *)
Theorem switch_enter_untouched w : untouched w (switch_enter w).2.
Proof.
  destruct (decide (current w = Hub.greenlet (hub w))) as [Heq|Hne].
  - unfold switch_enter, getcurrent, hub_greenlet. rewrite !bind_gets.
    rewrite bool_decide_eq_false_2 by (intros H; by apply H).
    apply untouched_refl.
  - rewrite switch_enter_unfold by done.
    pose proof (ensure_greenlet_untouched w) as Hens.
    unfold bind. destruct (ensure_greenlet w) as [[[]|e] w0]; [|exact Hens].
    eapply untouched_trans; [exact Hens|]. apply reparent_untouched.
Qed.

(** X10. A second pass through the steps of [switch] changes nothing: in
    the world the first pass leaves, the assertion holds, the hub greenlet
    is alive and the caller's parent is already what [switch] wants. *)
Theorem switch_enter_idempotent w :
  let cur := current w in
  let old := Hub.greenlet (hub w) in
  let st := greenlets w in
  cur ≠ old →
  is_Some (st !! cur) →
  (greenlet.dead (st !!! old) = true → greenlet.well_parented st old = true) →
  (do_ switch_enter; switch_enter) w = switch_enter w.
Proof.
  intros cur old st Hne Hcur Hwf.
  destruct (ensure_greenlet_for_switch w Hne Hcur Hwf)
    as (w0 & Hens & Hc0 & _ & _ & _ & Hlive & Hhc & Hchain & Hpar).
  fold cur old st in Hc0, Hhc, Hchain, Hpar.
  assert (∀ w', current w' = cur → Hub.greenlet (hub w') = Hub.greenlet (hub w0) →
                greenlets w' !!! Hub.greenlet (hub w0)
                = greenlets w0 !!! Hub.greenlet (hub w0) →
                switch_enter w' = (do_ ret tt; reparent cur) w') as Hagain.
  { intros w' Hc' Hh' Hg'.
    rewrite switch_enter_unfold by (rewrite Hc', Hh'; by apply not_eq_sym).
    erewrite bind_Return; [|apply ensure_greenlet_alive; by rewrite Hh', Hg'].
    by rewrite Hc'. }
  assert (switch_enter w = (do_ ret tt; reparent cur) w0) as Henter.
  { rewrite switch_enter_unfold by done. by rewrite (bind_Return _ _ _ _ _ Hens). }
  rewrite bind_ret in Henter.
  assert (reparent cur w0
          = (Return tt,
             if greenlet.is_ancestor st cur old then w0
             else set_greenlets
                    (<[cur := greenlet.with_parent (Hub.greenlet (hub w0))
                                (greenlets w0 !!! cur)]> (greenlets w0)) w0)) as Hrep.
  { rewrite reparent_run; [by rewrite Hchain|].
    intros Hp. rewrite Hchain. by apply Hpar. }
  rewrite Hrep in Henter.
  rewrite (bind_Return _ _ _ _ _ Henter), Henter.
  destruct (greenlet.is_ancestor st cur old) eqn:Hanc.
  - rewrite Hagain by done. by rewrite bind_ret.
  - set (hg := Hub.greenlet (hub w0)) in *.
    set (st1 := <[cur := greenlet.with_parent hg (greenlets w0 !!! cur)]> (greenlets w0)).
    set (w1 := set_greenlets st1 w0).
    assert (greenlets w1 !!! hg = greenlets w0 !!! hg) as Hhg.
    { unfold w1, st1. simpl. by rewrite lookup_total_insert_ne. }
    rewrite Hagain by done. rewrite bind_ret.
    rewrite reparent_run.
    2:{ change (Hub.greenlet (hub w1)) with hg. rewrite Hhg.
        intros Hp. by specialize (Hpar Hp). }
    change (Hub.greenlet (hub w1)) with hg.
    assert (set_greenlets
              (<[cur := greenlet.with_parent hg (greenlets w1 !!! cur)]> (greenlets w1)) w1
            = w1) as ->;
      [|by destruct (greenlet.in_chain (S (size (greenlets w1))) (greenlets w1) cur (Some hg))].
    unfold w1, st1. simpl. rewrite lookup_total_insert_eq, insert_insert_eq.
    done.
Qed.

(** X11. A hub fresh out of [__init__] has an empty registry and a new,
    live greenlet whose parent is the greenlet that made the hub; when
    that greenlet then goes through the steps of [switch], nothing at all
    changes: the hub greenlet needs no replacement and the caller, being
    the hub greenlet's parent, is not reparented under it. *)
Theorem init_then_switch_enter w :
  is_Some (greenlets w !! current w) →
  ∃ w', __init__ w = (Return tt, w')
    ∧ (∀ e k, registered w' e k = None)
    ∧ greenlets w !! Hub.greenlet (hub w') = None
    ∧ greenlets w' !! Hub.greenlet (hub w')
      = Some (greenlet.mk (Some (current w)) false)
    ∧ (∀ g, g ≠ Hub.greenlet (hub w') → greenlets w' !! g = greenlets w !! g)
    ∧ current w' = current w
    ∧ switch_enter w' = (Return tt, w').
Proof.
  intros [c Hc].
  set (g := fresh (dom (greenlets w))).
  assert (greenlets w !! g = None) as Hg by apply not_elem_of_dom, is_fresh.
  assert (current w ≠ g) as Hne by (intros E; rewrite E in Hc; congruence).
  eexists. split; [reflexivity|]. simpl. fold g.
  split. { intros e k. unfold registered. simpl. destruct e; apply lookup_empty. }
  split; [done|]. split; [by rewrite lookup_insert_eq|].
  split. { intros g' Hg'. by rewrite lookup_insert_ne. }
  split; [done|].
  rewrite switch_enter_unfold by done.
  erewrite bind_Return; last first.
  { apply ensure_greenlet_alive. simpl. by rewrite lookup_total_insert_eq. }
  unfold reparent, except_ValueError_pass, hub_greenlet, get_parent.
  rewrite !bind_gets. simpl. rewrite lookup_total_insert_eq. simpl.
  by rewrite bool_decide_eq_false_2 by (intros H; by apply H).
Qed.

End hub_greenlet_more.

(** ** More on [trampoline] and [gyield] *)

Section trampoline_more.

Import AbstractHub AbstractHubInit ConcreteHub trampoline.

Implicit Types (w : World) (gs : gid → M pyobj).

Lemma switch_in_hub_greenlet gs w :
  current w = Hub.greenlet (hub w) →
  switch gs w = (Raise (AssertionError "Cannot switch to the hub from the hub"), w).
Proof.
  intros Heq. unfold switch, switch_enter, getcurrent, hub_greenlet.
  unfold bind at 1. rewrite !bind_gets.
  by rewrite bool_decide_eq_false_2 by (intros H; apply H, Heq).
Qed.

(** The registry a [trampoline] call leaves, when the pair was free. *)
Lemma trampoline_free_registry gs fd evtype timeout timeout_exc w :
  registered w evtype fd = None →
  let listener := AbstractListener.mk evtype fd (current w) in
  let w_a := with_bucket evtype
               (<[fd := Some listener]> (bucket (Hub.listeners (hub w)) evtype))
               (with_timer timeout timeout_exc w) in
  let w_s := (switch gs w_a).2 in
  let w_r := with_bucket evtype (delete fd (bucket (Hub.listeners (hub w_s)) evtype)) w_s in
  trampoline gs fd evtype timeout timeout_exc w
  = ((switch gs w_a).1,
     match timeout with
     | Some _ => (cancel (fresh (dom (timers w))) w_r).2
     | None => w_r
     end).
Proof.
  intros Hfree listener w_a w_s w_r.
  destruct (trampoline_free gs fd evtype timeout timeout_exc w Hfree)
    as (w_r' & Hrem & Hout).
  cbv zeta in Hrem, Hout. fold listener in Hrem, Hout.
  assert ((bucket_setitem evtype fd (Some listener)
             (with_timer timeout timeout_exc w)).2 = w_a) as Hwa.
  { unfold w_a, with_bucket, bucket_setitem, modify. simpl. by destruct timeout. }
  rewrite Hwa in Hrem, Hout. fold w_s in Hrem.
  rewrite remove_listener_world in Hrem. simpl in Hrem.
  injection Hrem as <-. exact Hout.
Qed.

(** X12. Called by the hub's own greenlet on a free pair, [trampoline] is
    not stopped by its own assertion (which compares the hub object with a
    greenlet): it schedules the timer, registers the listener, and only
    then fails in [switch] with 'Cannot switch to the hub from the hub'.
    On the way out the listener is removed and the timer cancelled, so the
    hub object and the greenlets are as before and no timer is armed that
    was not armed before. *)
Theorem trampoline_in_hub_greenlet gs fd evtype timeout timeout_exc w :
  current w = Hub.greenlet (hub w) →
  registered w evtype fd = None →
  let out := trampoline gs fd evtype timeout timeout_exc w in
  out.1 = Raise (AssertionError "Cannot switch to the hub from the hub")
  ∧ hub out.2 = hub w
  ∧ greenlets out.2 = greenlets w
  ∧ callbacks out.2 = callbacks w
  ∧ current out.2 = current w
  ∧ (∀ t, armed out.2 t = armed w t).
Proof.
  intros Hcur Hfree out. subst out.
  rewrite trampoline_free_registry by done.
  set (listener := AbstractListener.mk evtype fd (current w)).
  set (w_a := with_bucket _ _ _).
  rewrite (switch_in_hub_greenlet gs w_a) by (unfold w_a; by destruct timeout).
  cbn [fst snd].
  assert (with_bucket evtype (delete fd (bucket (Hub.listeners (hub w_a)) evtype)) w_a
          = with_timer timeout timeout_exc w) as ->.
  { unfold w_a, with_bucket. cbn [hub set_hub Hub.listeners Hub.set_listeners].
    rewrite bucket_set_bucket_eq, delete_insert_id by (by destruct timeout).
    assert (hub (with_timer timeout timeout_exc w) = hub w) as Hh by (by destruct timeout).
    rewrite !Hh.
    generalize (with_timer timeout timeout_exc w) Hh. intros w1 Hw1.
    destruct w1 as [h1 st c ts q]. simpl in *. subst h1.
    destruct (hub w) as [[rb wb] g s d]. by destruct evtype. }
  assert (timers w !! fresh (dom (timers w)) = None) as Hnew
    by apply not_elem_of_dom, is_fresh.
  destruct timeout as [s|]; simpl; [|done].
  repeat split. intros t. unfold armed; simpl. rewrite lookup_alter.
  case_decide as E.
  - subst t. by rewrite lookup_insert_eq, Hnew.
  - by rewrite lookup_insert_ne.
Qed.

(** X13. If what runs while the caller waits leaves the registry as it
    found it, a [trampoline] call on a free pair leaves the registry
    exactly as it was before the call, whatever its outcome. *)
Theorem trampoline_restores_registry gs fd evtype timeout timeout_exc w :
  (∀ g w', Hub.listeners (hub (gs g w').2) = Hub.listeners (hub w')) →
  registered w evtype fd = None →
  Hub.listeners (hub (trampoline gs fd evtype timeout timeout_exc w).2)
  = Hub.listeners (hub w).
Proof.
  intros Hgs Hfree.
  rewrite trampoline_free_registry by done.
  set (listener := AbstractListener.mk evtype fd (current w)).
  set (w_a := with_bucket _ _ _).
  assert (Hub.listeners (hub (switch gs w_a).2) = Hub.listeners (hub w_a)) as Hsw.
  { unfold switch. pose proof (switch_enter_keeps w_a) as (Hl & _).
    unfold bind at 1. destruct (switch_enter w_a) as [[[]|e] w1]; [|done].
    unfold hub_greenlet. rewrite bind_gets. by rewrite Hgs. }
  assert (Hub.listeners (hub (with_timer timeout timeout_exc w)) = Hub.listeners (hub w))
    as Hwt by (by destruct timeout).
  assert (Hub.listeners
            (hub (with_bucket evtype
                    (delete fd (bucket (Hub.listeners (hub (switch gs w_a).2)) evtype))
                    (switch gs w_a).2))
          = Hub.listeners (hub w)) as Hfinal.
  { unfold with_bucket at 1. cbn [hub set_hub Hub.listeners Hub.set_listeners].
    rewrite Hsw. unfold w_a, with_bucket.
    cbn [hub set_hub Hub.listeners Hub.set_listeners]. rewrite Hwt.
    rewrite bucket_set_bucket_eq, delete_insert_id by done.
    destruct (Hub.listeners (hub w)) as [rb wb]. by destruct evtype. }
  cbn [snd]. by destruct timeout.
Qed.

(** X14. [gyield] called by the hub's own greenlet ends with the
    AssertionError of [switch], but only after it has queued the hub
    greenlet's own [switch] on the immediate-dispatch queue: the entry
    stays behind. *)
Theorem gyield_in_hub_greenlet gs w :
  current w = Hub.greenlet (hub w) →
  gyield gs w
  = (Raise (AssertionError "Cannot switch to the hub from the hub"),
     set_callbacks (callbacks w ++ [g_switch (Hub.greenlet (hub w))]) w).
Proof.
  intros Hcur. unfold gyield, getcurrent, schedule_call_now.
  rewrite bind_gets, bind_modify. rewrite Hcur.
  by erewrite bind_Raise; [|apply switch_in_hub_greenlet].
Qed.

End trampoline_more.

(** ** [guv/green/thread.py] *)

Section green_thread_facts.

Import green_thread.

(** X15. With [n] thread bodies in progress one inside the other, the
    function of the innermost sees the counter [n] above its start value,
    and when all of them have ended, by return or by exception, each has
    taken its own count back: the counter is what the function left,
    less [n]. An exception of the function reaches the outside
    unchanged. *)
Theorem thread_count_nested n func c :
  (nested n func c).2 = ((func (c + Z.of_nat n)%Z).2 - Z.of_nat n)%Z
  ∧ (nested n func c).1
    = match (func (c + Z.of_nat n)%Z).1 with
      | Raise e => Raise e
      | Return v => match n with O => Return v | S _ => Return PyNone end
      end.
Proof.
  revert c. induction n as [|n IH]; intros c.
  - simpl. rewrite Z.add_0_r, Z.sub_0_r. by destruct (func c) as [[v|e] c'].
  - simpl. unfold __thread_body.
    destruct (IH (c + 1)%Z) as [Hc Hr].
    replace (c + 1 + Z.of_nat n)%Z with (c + Z.of_nat (S n))%Z in Hc, Hr by lia.
    destruct (nested n func (c + 1)%Z) as [r c'] eqn:E. simpl in Hc, Hr. simpl.
    split; [lia|].
    rewrite Hr. destruct (func (c + Z.of_nat (S n))%Z) as [[v|e] c'']; simpl; [|done].
    by destruct n.
Qed.

(** X16. [stack_size] reads the configured size with a call of
    [_thread.stack_size] without argument, and that call resets the size to
    0. So [stack_size()] returns the configured size and leaves 0 behind; a
    call with a size not above the configured one returns [None] and leaves
    0 behind as well, whatever the comment in its last branch says; and a
    call with a larger size hands that size to [_thread.stack_size] when
    the configured size is 0 already, so that what it returns on success
    is what the builtin gives for a previous size of 0, not the size the
    caller had configured. *)
Theorem stack_size_resets set size s :
  (size = None →
   stack_size (thread_stack_size set) size s = (Return (Some s), 0%Z))
  ∧ (∀ n, size = Some n → (n ≤ s)%Z →
          stack_size (thread_stack_size set) size s = (Return None, 0%Z))
  ∧ (∀ n, size = Some n → (s < n)%Z →
          stack_size (thread_stack_size set) size s
          = match set n 0%Z with
            | (Return v, s') => (Return (Some v), s')
            | (Raise e, s') => (Raise e, s')
            end).
Proof.
  split; [|split].
  - by intros ->.
  - intros n -> Hle. simpl.
    destruct (n >? s)%Z eqn:Hgt; [lia|done].
  - intros n -> Hlt. simpl.
    destruct (n >? s)%Z eqn:Hgt; [done|lia].
Qed.

End green_thread_facts.

(** ** [pyuv_cffi]: [Loop] and [Poll.stop] *)

Section loop_and_poll.

(** X17. A [Loop] made by the constructor is freed once: the first
    [_free] hands its [loop_h] to [pyuv_loop_del] and clears
    [_loop_h_allocated]; every later [_free] does nothing. *)
Theorem loop_free_once loop_h deleted :
  let self1 := <["_loop_h_allocated" := Loop.A_bool false]> (Loop.__init__ loop_h) in
  Loop._free (Loop.__init__ loop_h) deleted
  = (Return tt, (self1, deleted ++ [Loop.A_ptr loop_h]))
  ∧ ∀ deleted', Loop._free self1 deleted' = (Return tt, (self1, deleted')).
Proof.
  split; [reflexivity|]. intros deleted'. reflexivity.
Qed.

(** X18. The object [default_loop] returns has the attribute
    [loop_h_allocated], without the underscore, and neither
    [_loop_h_allocated] nor [_handles]: on it [_free] and [handles] end
    with an AttributeError, and [pyuv_loop_del] is never called for the
    default loop. *)
Theorem default_loop_free_raises loop_h deleted :
  Loop._free (Loop.default_loop loop_h) deleted
  = (Raise (Loop.AttributeError "_loop_h_allocated"),
     (Loop.default_loop loop_h, deleted))
  ∧ Loop.handles (Loop.default_loop loop_h) = Raise (Loop.AttributeError "_handles")
  ∧ Loop.default_loop loop_h !! "loop_h_allocated" = Some (Loop.A_bool false)
  ∧ Loop.handles (Loop.__init__ loop_h) = Return (Loop.A_list []).
Proof. repeat split; reflexivity. Qed.

(** X19. [Poll.stop] on a poll not yet stopped calls [uv_poll_stop] and
    drops [_ffi_cb]. If libuv reports success, [_stop_called] is set and
    every later [stop] does nothing. If libuv reports an error, [stop]
    raises with [_stop_called] still unset, so a later [stop] calls
    [uv_poll_stop] again. *)
Theorem poll_stop_once err (self : Poll.t) stopped :
  Poll._stop_called self = false →
  let h := pyuv_cffi.uv_handle (Poll.base self) in
  let out := Poll.stop err self stopped in
  out.2.2 = stopped ++ [h]
  ∧ pyuv_cffi._ffi_cb (Poll.base out.2.1) = None
  ∧ ((0 ≤ err)%Z →
     out.1 = Return tt
     ∧ Poll._stop_called out.2.1 = true
     ∧ ∀ err' stopped', Poll.stop err' out.2.1 stopped' = (Return tt, (out.2.1, stopped')))
  ∧ ((err < 0)%Z →
     out.1 = Raise (OtherError "Exception: uv_poll_stop() failed")
     ∧ Poll._stop_called out.2.1 = false
     ∧ ∀ err' stopped', (Poll.stop err' out.2.1 stopped').2.2 = stopped' ++ [h]).
Proof.
  intros Hns h out. subst out. unfold Poll.stop. rewrite Hns.
  destruct (err <? 0)%Z eqn:Herr; simpl.
  - apply Z.ltb_lt in Herr. repeat split; try done; try lia.
    intros err' stopped'. by destruct (err' <? 0)%Z.
  - apply Z.ltb_ge in Herr. repeat split; try done; lia.
Qed.

End loop_and_poll.

(** ** Runs of the handle module *)

Section handle_runs.

Import pyuv_cffi HandleRuns.

Implicit Types (s : state) (self : hid).








Lemma list_remove_other x y : ∀ l l',
  list_remove x l = Some l' → y ≠ x → y ∈ l → y ∈ l'.
Proof.
  induction l as [|z l IH]; intros l' Hrem Hne Hin; [done|].
  simpl in Hrem. destruct (decide (z = x)) as [->|Hzx].
  - injection Hrem as <-. apply elem_of_cons in Hin as [->|Hin]; done.
  - destruct (list_remove x l) as [r|] eqn:Hr; [|done].
    injection Hrem as <-. apply elem_of_cons in Hin as [->|Hin].
    + apply elem_of_cons. by left.
    + apply elem_of_cons. right. by apply IH.
Qed.


Lemma step_alive_ok o s : enabled o s → alive_ok s → alive_ok (step o s).
Proof.
  intros Hen [Hal Hcb].
  destruct o as [handle|self' cb|self' cb raises|self' cb|poll self']; simpl.
  - split; intros self h; simpl.
    + destruct (decide (fresh (dom (handles s)) = self)) as [<-|Hne].
      * intros _ _. apply elem_of_app. right. by apply list_elem_of_singleton.
      * rewrite lookup_insert_ne by done. intros Hh Hc.
        apply elem_of_app. left. by eapply Hal.
    + destruct (decide (fresh (dom (handles s)) = self)) as [<-|Hne].
      * rewrite lookup_insert_eq. intros [= <-] [x Hx]. done.
      * rewrite lookup_insert_ne by done. apply Hcb.
  - unfold close. destruct (handles s !! self') as [h'|] eqn:Hh'; [|done].
    destruct (_close_called h') eqn:Hc'; [done|].
    split; intros self h; simpl.
    + destruct (decide (self' = self)) as [->|Hne].
      * rewrite lookup_insert_eq. by intros [= <-].
      * rewrite lookup_insert_ne by done. apply Hal.
    + destruct (decide (self' = self)) as [->|Hne].
      * rewrite lookup_insert_eq. by intros [= <-].
      * rewrite lookup_insert_ne by done. apply Hcb.
  - destruct Hen as (h0 & Hh0 & Hreg).
    assert (_close_called h0 = true) as Hc0 by (eapply Hcb; [done|by rewrite Hreg]).
    unfold close_cb_run.
    set (s1 := match cb with Some _ => _ | None => s end).
    assert (handles s1 = handles s ∧ alive s1 = alive s) as [Hh1 Ha1]
      by (by destruct cb).
    destruct (match cb with Some _ => raises | None => false end);
      [split; intros ? ?; rewrite ?Hh1, ?Ha1; [apply Hal|apply Hcb]|].
    destruct (list_remove self' (alive s1)) as [alive'|] eqn:Hrem;
      [|split; intros ? ?; rewrite ?Hh1, ?Ha1; [apply Hal|apply Hcb]].
    rewrite Hh1, Hh0. rewrite Ha1 in Hrem.
    split; intros self h; simpl.
    + destruct (decide (self' = self)) as [->|Hne].
      * rewrite lookup_insert_eq. intros [= <-]. simpl. congruence.
      * rewrite lookup_insert_ne by done. intros Hh Hc.
        eapply list_remove_other; [done|by apply not_eq_sym|by eapply Hal].
    + destruct (decide (self' = self)) as [->|Hne].
      * rewrite lookup_insert_eq. intros [= <-] [x Hx]. done.
      * rewrite lookup_insert_ne by done. apply Hcb.
  - unfold start. destruct (handles s !! self') as [h'|] eqn:Hh'; [|done].
    split; intros self h; simpl.
    + destruct (decide (self' = self)) as [->|Hne].
      * rewrite lookup_insert_eq. intros [= <-]. simpl. apply (Hal self h' Hh').
      * rewrite lookup_insert_ne by done. apply Hal.
    + destruct (decide (self' = self)) as [->|Hne].
      * rewrite lookup_insert_eq. intros [= <-]. simpl. apply (Hcb self h' Hh').
      * rewrite lookup_insert_ne by done. apply Hcb.
  - unfold stop. destruct (handles s !! self') as [h'|] eqn:Hh'; [|done].
    split; intros self h; simpl.
    + destruct (decide (self' = self)) as [->|Hne].
      * rewrite lookup_insert_eq. intros [= <-]. simpl. apply (Hal self h' Hh').
      * rewrite lookup_insert_ne by done. apply Hal.
    + destruct (decide (self' = self)) as [->|Hne].
      * rewrite lookup_insert_eq. intros [= <-]. simpl. apply (Hcb self h' Hh').
      * rewrite lookup_insert_ne by done. apply Hcb.
Qed.

Lemma run_ok_alive_ok ops s s' : run_ok ops s s' → alive_ok s → alive_ok s'.
Proof.
  induction 1 as [|o ops s s' Hen Hrun IH]; [done|].
  intros Hok. apply IH. by apply step_alive_ok.
Qed.

(** X21. Over any run of the module from its state at import time in
    which libuv fires only the close callbacks it was given, a handle on
    which [close] has not been called is still in the list [alive]: the
    module keeps every open handle referenced. *)
Theorem open_handles_stay_alive ops s self h :
  run_ok ops initial s →
  handles s !! self = Some h →
  _close_called h = false →
  self ∈ alive s.
Proof.
  intros Hrun. apply (run_ok_alive_ok ops initial s Hrun).
  split; intros self' h'; unfold initial; simpl; by rewrite lookup_empty.
Qed.


End handle_runs.

(** ** The greenlet store stays a forest *)

Section forest_facts.

Import greenlet forest AbstractHub.

Implicit Types (st : gmap gid greenlet.t) (p : option gid).

Lemma rooted_mono n : ∀ st s p m,
  rooted n st s p = true → (n ≤ m)%nat → rooted m st s p = true.
Proof.
  induction n as [|n IH]; intros st s p m Hr Hm.
  - destruct p; [done|]. by destruct m.
  - destruct p as [q|]; [|by destruct m].
    destruct m as [|m]; [lia|]. simpl in *.
    destruct (decide (q = s)); [done|].
    destruct (st !! q) as [o|]; [|done]. apply IH; [done|lia].
Qed.

(** A rooted chain that does not pass [x] is the same chain in a store
    that differs at [x] only. *)
Lemma rooted_off_chain n : ∀ st st' s x p,
  rooted n st s p = true →
  (∀ q, q ≠ x → st' !! q = st !! q) →
  in_chain n st x p = false →
  rooted n st' s p = true.
Proof.
  induction n as [|n IH]; intros st st' s x p Hr Hagree Hx.
  - by destruct p.
  - destruct p as [q|]; [|done]. simpl in *.
    destruct (decide (q = s)); [done|].
    destruct (decide (q = x)) as [|Hqx]; [done|].
    destruct (st !! q) as [o|] eqn:Hq; [|done].
    rewrite (lookup_total_correct st q o Hq) in Hx.
    rewrite (Hagree q Hqx), Hq. by eapply IH.
Qed.

(** A rooted chain avoids every greenlet the walk does not meet. *)
Lemma rooted_avoids n : ∀ st a s p,
  rooted n st a p = true → in_chain n st s p = false → rooted n st s p = true.
Proof.
  induction n as [|n IH]; intros st a s p Hr Hs.
  - by destruct p.
  - destruct p as [q|]; [|done]. simpl in *.
    destruct (decide (q = a)); [done|].
    destruct (decide (q = s)); [done|].
    destruct (st !! q) as [o|] eqn:Hq; [|done].
    rewrite (lookup_total_correct st q o Hq) in Hs. by eapply IH.
Qed.

Lemma rooted_avoids_absent n : ∀ st a y p,
  rooted n st a p = true → st !! y = None → rooted n st y p = true.
Proof.
  induction n as [|n IH]; intros st a y p Hr Hy.
  - by destruct p.
  - destruct p as [q|]; [|done]. simpl in *.
    destruct (decide (q = a)); [done|].
    destruct (st !! q) as [o|] eqn:Hq; [|done].
    destruct (decide (q = y)) as [->|]; [congruence|]. by eapply IH.
Qed.

Lemma in_chain_mono a : ∀ st s p b,
  in_chain a st s p = true → (a ≤ b)%nat → in_chain b st s p = true.
Proof.
  induction a as [|a IH]; intros st s p b Hin Hab; [done|].
  destruct p as [q|]; [|done]. destruct b as [|b]; [lia|]. simpl in *.
  destruct (decide (q = s)); [done|]. apply IH; [done|lia].
Qed.

(** If [g] is above [p] and [s] is above [g], then [s] is above [p]. *)
Lemma in_chain_trans k : ∀ st g s p k',
  in_chain k st g p = true →
  in_chain k' st s (parent (st !!! g)) = true →
  in_chain (k + k') st s p = true.
Proof.
  induction k as [|k IH]; intros st g s p k' Hg Hs; [done|].
  destruct p as [q|]; [|done]. simpl in *.
  destruct (decide (q = s)); [done|].
  destruct (decide (q = g)) as [->|Hqg].
  - eapply in_chain_mono; [done|lia].
  - by eapply IH.
Qed.

(** A chain of [st] that passes [self], continued in [st'] along the new
    parent of [self]. *)
Lemma rooted_splice n : ∀ st st' g self np o' m p,
  (∀ q, q ≠ self → st' !! q = st !! q) →
  st' !! self = Some o' →
  parent o' = Some np →
  rooted n st g p = true →
  in_chain n st self p = true →
  rooted m st' g (Some np) = true →
  rooted (n + m) st' g p = true.
Proof.
  induction n as [|n IH]; intros st st' g self np o' m p Hagree Hself Hnp Hr Hin Hm;
    [done|].
  destruct p as [q|]; [|done]. simpl in *.
  destruct (decide (q = g)); [done|].
  destruct (st !! q) as [oq|] eqn:Hq; [|done].
  destruct (decide (q = self)) as [->|Hqs].
  - rewrite Hself, Hnp. eapply rooted_mono; [done|lia].
  - rewrite (Hagree q Hqs), Hq.
    rewrite (lookup_total_correct st q oq Hq) in Hin. by eapply IH.
Qed.

Lemma chain_list_in_store n : ∀ st s p,
  rooted n st s p = true →
  (∀ x, x ∈ chain_list n st p → is_Some (st !! x))
  ∧ rooted (length (chain_list n st p)) st s p = true.
Proof.
  induction n as [|n IH]; intros st s p Hr.
  - destruct p; [done|]. split; [|done]. intros x Hx. by apply elem_of_nil in Hx.
  - destruct p as [q|]; [|split; [intros x Hx; by apply elem_of_nil in Hx|done]].
    simpl in *. destruct (decide (q = s)); [done|].
    destruct (st !! q) as [oq|] eqn:Hq; [|done].
    rewrite (lookup_total_correct st q oq Hq).
    destruct (IH st s (parent oq) Hr) as [Hin Hlen]. split; [|done].
    intros x Hx. apply elem_of_cons in Hx as [->|Hx]; [eauto|by apply Hin].
Qed.

Lemma not_in_chain_list n : ∀ st s p,
  in_chain n st s p = false → s ∉ chain_list n st p.
Proof.
  induction n as [|n IH]; intros st s p Hin; [by apply not_elem_of_nil|].
  destruct p as [q|]; [|by apply not_elem_of_nil]. simpl in *.
  destruct (decide (q = s)) as [|Hne]; [done|].
  apply not_elem_of_cons. split; [by apply not_eq_sym|by apply IH].
Qed.

Lemma chain_list_NoDup st :
  (∀ g o, st !! g = Some o → ∃ k, rooted k st g (parent o) = true) →
  ∀ n s p, rooted n st s p = true → NoDup (chain_list n st p).
Proof.
  intros Hall. induction n as [|n IH]; intros s p Hr; [by apply NoDup_nil|].
  destruct p as [q|]; [|by apply NoDup_nil]. simpl in *.
  destruct (decide (q = s)); [done|].
  destruct (st !! q) as [oq|] eqn:Hq; [|done].
  rewrite (lookup_total_correct st q oq Hq).
  apply NoDup_cons. split; [|by eapply IH].
  destruct (Hall q oq Hq) as [k Hk].
  apply not_in_chain_list. by eapply rooted_not_in_chain.
Qed.

(** A chain without repetition inside the store is no longer than the
    store is large: whatever fuel shows that the chains end, the size of
    the store is enough. *)
Lemma wf_store_from_rooted st :
  (∀ g o, st !! g = Some o → ∃ k, rooted k st g (parent o) = true) →
  wf_store st.
Proof.
  intros Hall g o Hg. destruct (Hall g o Hg) as [k Hk].
  destruct (chain_list_in_store k st g (parent o) Hk) as [Hin Hlen].
  eapply rooted_mono; [exact Hlen|].
  rewrite <- (size_dom (D := gset gid) st). unfold size at 1, set_size. simpl.
  apply submseteq_length, NoDup_submseteq; [by eapply chain_list_NoDup|].
  intros x Hx. apply elem_of_elements, elem_of_dom. by apply Hin.
Qed.

Lemma rooted_in_store n st s q :
  rooted n st s (Some q) = true → is_Some (st !! q) ∧ q ≠ s.
Proof.
  destruct n as [|n]; [done|]. simpl.
  destruct (decide (q = s)); [done|]. destruct (st !! q); [eauto|done].
Qed.

(** A new greenlet object under a greenlet of the forest. *)
Lemma wf_store_new st (y par : gid) d :
  wf_store st → is_Some (st !! par) → st !! y = None →
  wf_store (<[y := greenlet.mk (Some par) d]> st).
Proof.
  intros Hwf [op Hp] Hy.
  assert (par ≠ y) as Hpy by (intros ->; congruence).
  assert (∀ q, q ≠ y → <[y := greenlet.mk (Some par) d]> st !! q = st !! q) as Hagree
    by (intros q Hq; by rewrite lookup_insert_ne).
  assert (∀ s pp, rooted (size st) st s pp = true →
                  rooted (size st) (<[y := greenlet.mk (Some par) d]> st) s pp = true)
    as Hkeep.
  { intros s pp Hr. eapply rooted_off_chain; [done|done|].
    eapply rooted_not_in_chain. by eapply rooted_avoids_absent. }
  intros g o. rewrite map_size_insert_None by done.
  destruct (decide (g = y)) as [->|Hgy].
  - rewrite lookup_insert_eq. intros [= <-]. simpl.
    rewrite decide_False by done. rewrite lookup_insert_ne by done. rewrite Hp.
    apply Hkeep. eapply rooted_avoids_absent; [|done]. by apply Hwf.
  - rewrite lookup_insert_ne by done. intros Hg.
    eapply rooted_mono; [apply Hkeep; by apply Hwf|lia].
Qed.

(** The parent setter, when it accepts the new parent. *)
Lemma wf_store_set_parent st (self np : gid) o :
  wf_store st → st !! self = Some o → is_Some (st !! np) →
  in_chain (S (size st)) st self (Some np) = false →
  wf_store (<[self := greenlet.with_parent np o]> st).
Proof.
  intros Hwf Hself [onp Hnp] Hcheck.
  set (st' := <[self := greenlet.with_parent np o]> st).
  assert (∀ q, q ≠ self → st' !! q = st !! q) as Hagree
    by (intros q Hq; unfold st'; by rewrite lookup_insert_ne).
  assert (st' !! self = Some (greenlet.with_parent np o)) as Hself'
    by (unfold st'; by rewrite lookup_insert_eq).
  assert (np ≠ self ∧ in_chain (size st) st self (parent onp) = false) as [Hne Hup].
  { simpl in Hcheck. destruct (decide (np = self)); [done|].
    by rewrite (lookup_total_correct st np onp Hnp) in Hcheck. }
  assert (rooted (S (size st)) st self (Some np) = true) as Hroot.
  { simpl. rewrite decide_False by done. rewrite Hnp.
    eapply rooted_avoids; [by apply Hwf|done]. }
  apply wf_store_from_rooted. intros g og'.
  destruct (decide (g = self)) as [->|Hgs].
  - rewrite Hself'. intros [= <-]. exists (S (size st)). simpl parent.
    by eapply rooted_off_chain.
  - rewrite (Hagree g Hgs). intros Hg.
    destruct (in_chain (size st) st self (parent og')) eqn:Hpass.
    + exists (size st + S (size st))%nat.
      eapply rooted_splice; [done|done|done|by apply Hwf|done|].
      eapply rooted_off_chain; [|done|done].
      eapply rooted_avoids; [done|].
      destruct (in_chain (S (size st)) st g (Some np)) eqn:Hg_above; [|done].
      pose proof (in_chain_trans _ st g self (Some np) (size st) Hg_above) as Htrans.
      rewrite (lookup_total_correct st g og' Hg) in Htrans. specialize (Htrans Hpass).
      rewrite (rooted_in_chain_agree (S (size st)) st st self self (Some np)
                 _ (S (size st)) Hroot) in Htrans; [congruence|done|lia|lia].
    + exists (size st). eapply rooted_off_chain; [by apply Hwf|done|done].
Qed.

Lemma wf_store_well_parented st g o (par : gid) :
  wf_store st → st !! g = Some o → parent o = Some par → well_parented st g = true.
Proof.
  intros Hwf Hg Hp. unfold well_parented. rewrite Hg, Hp. rewrite <- Hp. by apply Hwf.
Qed.

Lemma ensure_greenlet_ok w : hub_world_ok w → hub_world_ok (ensure_greenlet w).2.
Proof.
  intros (Hwf & Hcur & Hhub).
  destruct (greenlet.dead (greenlets w !!! Hub.greenlet (hub w))) eqn:Hd;
    [|by rewrite ensure_greenlet_alive].
  rewrite (ensure_greenlet_dead_cases w Hd).
  set (st := greenlets w) in *. set (old := Hub.greenlet (hub w)) in *.
  set (new := fresh (dom st)).
  set (par := match parent (st !!! old) with Some q => q | None => current w end).
  assert (st !! new = None) as Hnew by apply not_elem_of_dom, is_fresh.
  destruct Hhub as [o Ho].
  assert (new ≠ old) as Hno by (intros E; rewrite E in Hnew; congruence).
  assert (is_Some (st !! par)) as Hp.
  { unfold par. rewrite (lookup_total_correct st old o Ho).
    destruct (parent o) as [q|] eqn:Hq; [|done].
    pose proof (Hwf old o Ho) as Hr. rewrite Hq in Hr.
    by apply rooted_in_store in Hr as [? _]. }
  set (st1 := <[new := greenlet.mk (Some par) false]> st).
  assert (wf_store st1) as Hwf1 by (by apply wf_store_new).
  assert (is_Some (st1 !! current w)) as Hcur1.
  { destruct Hcur as [c Hc]. exists c. unfold st1. rewrite lookup_insert_ne; [done|].
    intros E. rewrite <- E in Hc. congruence. }
  assert (st1 !! old = Some o) as Ho1 by (unfold st1; by rewrite lookup_insert_ne).
  destruct (in_chain (S (size st1)) st1 old (Some new)) eqn:Hchain.
  - unfold hub_world_ok. simpl. split; [done|]. split; [done|]. eauto.
  - unfold hub_world_ok. simpl. rewrite (lookup_total_correct st1 old o Ho1).
    split; [|split].
    + apply wf_store_set_parent; [done|done| |done].
      unfold st1. rewrite lookup_insert_eq. eauto.
    + destruct (decide (old = current w)) as [E|Hne].
      * rewrite <- E, lookup_insert_eq. eauto.
      * by rewrite lookup_insert_ne.
    + rewrite lookup_insert_ne by done. unfold st1. rewrite lookup_insert_eq. eauto.
Qed.

Lemma reparent_ok cur w :
  hub_world_ok w → cur = current w → hub_world_ok (reparent cur w).2.
Proof.
  intros (Hwf & [c Hc] & Hhub) ->.
  unfold reparent, except_ValueError_pass, hub_greenlet, get_parent.
  rewrite !bind_gets. case_bool_decide; [|done].
  destruct (in_chain (S (size (greenlets w))) (greenlets w) (current w)
              (Some (Hub.greenlet (hub w)))) eqn:Hchain.
  - by rewrite set_parent_Raise.
  - rewrite set_parent_Return by done. unfold hub_world_ok. simpl.
    rewrite (lookup_total_correct _ _ _ Hc).
    split; [by apply wf_store_set_parent|].
    split; [rewrite lookup_insert_eq; eauto|].
    destruct (decide (current w = Hub.greenlet (hub w))) as [E|Hne].
    + rewrite <- E, lookup_insert_eq. eauto.
    + by rewrite lookup_insert_ne.
Qed.

(** X23. [switch] keeps the greenlet store a forest. If every greenlet's
    parent chain ends at a root without coming back to it, and the running
    greenlet and the hub's greenlet are objects of the store, then the
    same is true of the world in which [switch] hands over control, or in
    which it stops with an exception: replacing a dead hub greenlet and
    reparenting the caller never create a parent cycle or a dangling
    parent. *)
Theorem switch_enter_keeps_forest w :
  hub_world_ok w → hub_world_ok (switch_enter w).2.
Proof.
  intros Hok. unfold switch_enter, getcurrent, hub_greenlet. rewrite !bind_gets.
  case_bool_decide as Hne; [|done].
  unfold assert_. rewrite bind_ret.
  pose proof (ensure_greenlet_ok w Hok) as H0.
  pose proof (ensure_greenlet_untouched w) as (_ & _ & _ & _ & _ & Hc & _).
  unfold bind. destruct (ensure_greenlet w) as [[[]|e] w0]; [|done].
  simpl in *. by apply reparent_ok.
Qed.

(** X24. A hub made in a forest leaves a forest: after [__init__], run
    by a greenlet of the store, the store with the new hub greenlet is
    still a forest that holds the running greenlet and the hub's
    greenlet. *)
Theorem init_keeps_forest w :
  wf_store (greenlets w) →
  is_Some (greenlets w !! current w) →
  hub_world_ok (AbstractHubInit.__init__ w).2.
Proof.
  intros Hwf [c Hc].
  set (g := fresh (dom (greenlets w))).
  assert (greenlets w !! g = None) as Hg by apply not_elem_of_dom, is_fresh.
  split; [|split]; simpl; fold g.
  - apply wf_store_new; eauto.
  - rewrite lookup_insert_ne; [eauto|]. intros E. rewrite <- E in Hc. congruence.
  - rewrite lookup_insert_eq. eauto.
Qed.

End forest_facts.

(** ** The further statements at work on the example worlds *)

Section examples_more.

Import Examples Examples2 AbstractHub AbstractHubInit.

Lemma add_listener_registers_witness :
  registered w_live READ 7%Z = None
  ∧ ∃ w', _add_listener listener7 w_live = (Return tt, w')
          ∧ registered w' READ 7%Z = Some (Some listener7).
Proof.
  assert (registered w_live READ 7%Z = None) as H by (vm_compute; reflexivity).
  split; [exact H|].
  destruct (add_listener_registers w_live listener7 H) as (w' & Hadd & Hreg & _).
  exists w'. split; [exact Hadd|exact Hreg].
Defined.

Lemma add_then_remove_restores_witness :
  registered w_live READ 7%Z = None
  ∧ (do_ _add_listener listener7; _remove_listener listener7) w_live
    = (Return tt, w_live).
Proof.
  assert (registered w_live READ 7%Z = None) as H by (vm_compute; reflexivity).
  split; [exact H|]. exact (add_then_remove_restores w_live listener7 H).
Defined.

Lemma remove_unregistered_is_noop_witness :
  registered w_live READ 7%Z = None
  ∧ _remove_listener listener7 w_live = (Return tt, w_live).
Proof.
  assert (registered w_live READ 7%Z = None) as H by (vm_compute; reflexivity).
  split; [exact H|]. exact (remove_unregistered_is_noop w_live listener7 H).
Defined.

Lemma remove_evicts_other_listener_witness :
  listener7 ≠ AbstractListener.mk READ 7%Z root_g
  ∧ registered w_listening READ 7%Z = Some (Some listener7)
  ∧ ∃ w', _remove_listener (AbstractListener.mk READ 7%Z root_g) w_listening
          = (Return tt, w')
          ∧ registered w' READ 7%Z = None.
Proof.
  assert (listener7 ≠ AbstractListener.mk READ 7%Z root_g) as Hne by discriminate.
  assert (registered w_listening READ 7%Z = Some (Some listener7)) as H
    by (vm_compute; reflexivity).
  split; [exact Hne|]. split; [exact H|].
  destruct (remove_evicts_other_listener w_listening
              (AbstractListener.mk READ 7%Z root_g) listener7 Hne H)
    as (w' & Hrem & Hgone & _).
  exists w'. split; [exact Hrem|exact Hgone].
Defined.

Lemma remove_then_add_registers_witness :
  ∃ w', (do_ _remove_listener listener7;
         _add_listener (AbstractListener.mk READ 7%Z root_g)) w_listening
        = (Return tt, w')
        ∧ registered w' READ 7%Z = Some (Some (AbstractListener.mk READ 7%Z root_g)).
Proof.
  destruct (remove_then_add_registers w_listening listener7
              (AbstractListener.mk READ 7%Z root_g) eq_refl eq_refl)
    as (w' & Hrun & Hreg & _).
  exists w'. split; [exact Hrun|exact Hreg].
Defined.


Lemma resurrection_keeps_descendants_witness :
  greenlet.dead (greenlets w_dead_child !!! hub_g) = true
  ∧ greenlet.well_parented (greenlets w_dead_child) hub_g = true
  ∧ greenlet.is_ancestor (greenlets w_dead_child) hub_g 5%positive = true
  ∧ ∃ w', ensure_greenlet w_dead_child = (Return tt, w')
          ∧ greenlet.is_ancestor (greenlets w') (Hub.greenlet (hub w')) 5%positive = true.
Proof.
  assert (greenlet.dead (greenlets w_dead_child !!! Hub.greenlet (hub w_dead_child)) = true)
    as Hd by (vm_compute; reflexivity).
  assert (greenlet.well_parented (greenlets w_dead_child)
            (Hub.greenlet (hub w_dead_child)) = true) as Hwf by (vm_compute; reflexivity).
  assert (greenlet.is_ancestor (greenlets w_dead_child)
            (Hub.greenlet (hub w_dead_child)) 5%positive = true) as Hanc
    by (vm_compute; reflexivity).
  split; [exact Hd|]. split; [exact Hwf|]. split; [exact Hanc|].
  destruct (resurrection_keeps_descendants w_dead_child 5%positive Hd Hwf Hanc)
    as (w' & Hens & _ & _ & _ & Hnew).
  exists w'. split; [exact Hens|exact Hnew].
Defined.

Lemma switch_enter_idempotent_witness :
  current w_dead ≠ Hub.greenlet (hub w_dead)
  ∧ is_Some (greenlets w_dead !! current w_dead)
  ∧ greenlet.well_parented (greenlets w_dead) (Hub.greenlet (hub w_dead)) = true
  ∧ (do_ switch_enter; switch_enter) w_dead = switch_enter w_dead.
Proof.
  assert (current w_dead ≠ Hub.greenlet (hub w_dead)) as Hne by (vm_compute; discriminate).
  assert (is_Some (greenlets w_dead !! current w_dead)) as Hcur
    by (eexists; vm_compute; reflexivity).
  assert (greenlet.well_parented (greenlets w_dead) (Hub.greenlet (hub w_dead)) = true)
    as Hwf by (vm_compute; reflexivity).
  split; [exact Hne|]. split; [exact Hcur|]. split; [exact Hwf|].
  exact (switch_enter_idempotent w_dead Hne Hcur (λ _, Hwf)).
Defined.

Lemma init_then_switch_enter_witness :
  is_Some (greenlets w_live !! current w_live)
  ∧ ∃ w', __init__ w_live = (Return tt, w') ∧ switch_enter w' = (Return tt, w').
Proof.
  assert (is_Some (greenlets w_live !! current w_live)) as Hcur
    by (eexists; vm_compute; reflexivity).
  split; [exact Hcur|].
  destruct (init_then_switch_enter w_live Hcur) as (w' & Hinit & _ & _ & _ & _ & _ & Hsw).
  exists w'. split; [exact Hinit|exact Hsw].
Defined.

Lemma trampoline_in_hub_greenlet_witness :
  current w_in_hub = Hub.greenlet (hub w_in_hub)
  ∧ registered w_in_hub READ 7%Z = None
  ∧ (trampoline.trampoline resume_at_once 7%Z READ (Some (1 # 2)%Q) None w_in_hub).1
    = Raise (AssertionError "Cannot switch to the hub from the hub").
Proof.
  assert (current w_in_hub = Hub.greenlet (hub w_in_hub)) as Hcur by reflexivity.
  assert (registered w_in_hub READ 7%Z = None) as H by (vm_compute; reflexivity).
  split; [exact Hcur|]. split; [exact H|].
  exact (proj1 (trampoline_in_hub_greenlet resume_at_once 7%Z READ
                  (Some (1 # 2)%Q) None w_in_hub Hcur H)).
Defined.

Lemma trampoline_restores_registry_witness :
  (∀ g w', Hub.listeners (hub (resume_at_once g w').2) = Hub.listeners (hub w'))
  ∧ registered w_live READ 7%Z = None
  ∧ Hub.listeners
      (hub (trampoline.trampoline resume_at_once 7%Z READ (Some (1 # 2)%Q) None w_live).2)
    = Hub.listeners (hub w_live).
Proof.
  assert (∀ g w', Hub.listeners (hub (resume_at_once g w').2) = Hub.listeners (hub w'))
    as Hgs by (intros g w'; reflexivity).
  assert (registered w_live READ 7%Z = None) as H by (vm_compute; reflexivity).
  split; [exact Hgs|]. split; [exact H|].
  exact (trampoline_restores_registry resume_at_once 7%Z READ
           (Some (1 # 2)%Q) None w_live Hgs H).
Defined.

Lemma gyield_in_hub_greenlet_witness :
  current w_in_hub = Hub.greenlet (hub w_in_hub)
  ∧ trampoline.gyield resume_at_once w_in_hub
    = (Raise (AssertionError "Cannot switch to the hub from the hub"),
       set_callbacks [g_switch hub_g] w_in_hub).
Proof.
  assert (current w_in_hub = Hub.greenlet (hub w_in_hub)) as Hcur by reflexivity.
  split; [exact Hcur|]. exact (gyield_in_hub_greenlet resume_at_once w_in_hub Hcur).
Defined.

Lemma stack_size_resets_witness :
  green_thread.stack_size (green_thread.thread_stack_size (λ n s, (Return s, n)))
    (Some 32768%Z) 65536%Z
  = (Return None, 0%Z).
Proof.
  apply (proj1 (proj2 (stack_size_resets (λ n s, (Return s, n)) (Some 32768%Z) 65536%Z))
           32768%Z); [reflexivity|lia].
Defined.

Lemma poll_stop_once_witness :
  Poll._stop_called poll0 = false
  ∧ (Poll.stop 0 poll0 []).2.2 = [9%nat]
  ∧ pyuv_cffi._ffi_cb (Poll.base (Poll.stop 0 poll0 []).2.1) = None.
Proof.
  assert (Poll._stop_called poll0 = false) as H by reflexivity.
  split; [exact H|].
  destruct (poll_stop_once 0 poll0 [] H) as (Hcalls & Hcb & _).
  split; [exact Hcalls|exact Hcb].
Defined.

Lemma switch_enter_keeps_forest_witness :
  forest.hub_world_ok w_dead ∧ forest.hub_world_ok (switch_enter w_dead).2.
Proof.
  assert (forest.hub_world_ok w_dead) as Hok.
  { split; [|split; eexists; vm_compute; reflexivity].
    change (map_Forall
              (λ g o, greenlet.rooted (size (greenlets w_dead)) (greenlets w_dead) g
                        (greenlet.parent o) = true) (greenlets w_dead)).
    apply (bool_decide_unpack _). vm_compute. exact I. }
  split; [exact Hok|]. exact (switch_enter_keeps_forest w_dead Hok).
Defined.

Lemma init_keeps_forest_witness :
  forest.wf_store (greenlets w_live)
  ∧ is_Some (greenlets w_live !! current w_live)
  ∧ forest.hub_world_ok (__init__ w_live).2.
Proof.
  assert (forest.wf_store (greenlets w_live)) as Hwf.
  { change (map_Forall
              (λ g o, greenlet.rooted (size (greenlets w_live)) (greenlets w_live) g
                        (greenlet.parent o) = true) (greenlets w_live)).
    apply (bool_decide_unpack _). vm_compute. exact I. }
  assert (is_Some (greenlets w_live !! current w_live)) as Hcur
    by (eexists; vm_compute; reflexivity).
  split; [exact Hwf|]. split; [exact Hcur|]. exact (init_keeps_forest w_live Hwf Hcur).
Defined.

End examples_more.

Section handle_examples_more.

Import pyuv_cffi HandleRuns.


Lemma open_handles_stay_alive_witness :
  2%positive ∈ alive (run [Op_init 42; Op_init 43; Op_close 1%positive (Some "cb");
                           Op_close_cb 1%positive (Some "cb") false] initial).
Proof.
  eapply (open_handles_stay_alive
            [Op_init 42; Op_init 43; Op_close 1%positive (Some "cb");
             Op_close_cb 1%positive (Some "cb") false] _ 2%positive
            (mk_Handle 43 None None false)).
  - apply run_ok_cons; [exact I|]. apply run_ok_cons; [exact I|].
    apply run_ok_cons; [exact I|]. apply run_ok_cons; [|apply run_ok_nil].
    eexists. split; vm_compute; reflexivity.
  - vm_compute; reflexivity.
  - reflexivity.
Defined.


End handle_examples_more.
